(** * Wallpapers API: the watermark pipeline of [main.py]

    A shallow embedding of [_load_image_from_url], [_apply_watermark] and
    [watermark_image], together with the parts of Pillow, requests and
    urllib they call.  Python objects live in a heap of image buffers, so
    that copies, in-place drawing and aliasing are visible; exceptions are
    a result type threaded through a state monad; calls that leave the
    process or draw on a buffer are recorded in a trace. *)

From Stdlib Require Import ZArith String Ascii List Lia Bool.
From stdpp Require Import base gmap strings list.

Local Open Scope Z_scope.

(** ** Python values and exceptions *)

Module Py.

(** Exceptions raised by library code.  None of them is an
    [HTTPException]: that class belongs to the web framework. *)
Inductive LibError : Type :=
| ValueError (msg : string)
| OSError (msg : string)
| RequestException (msg : string).

(** What an [except] clause can see: the framework's [HTTPException],
    matched by [except HTTPException], or any other [Exception]. *)
Inductive Exn : Type :=
| HTTPException (status_code : Z) (detail : string)
| Exception (e : LibError).

Inductive Res (A : Type) : Type :=
| Ok (a : A)
| Raise (e : Exn).
Arguments Ok {A} a.
Arguments Raise {A} e.

(** Truth value of an [Optional[str]]: [None] and [""] are falsy. *)
Definition truthy (text : option string) : bool :=
  match text with
  | None => false
  | Some EmptyString => false
  | Some (String _ _) => true
  end.

End Py.
Export Py.

(** ** Pillow images *)

Module PIL.

(** The two modes the program asks for by name. *)
Inductive Mode : Type := ModeRGB | ModeRGBA.

Definition Mode_eqb (a b : Mode) : bool :=
  match a, b with
  | ModeRGB, ModeRGB | ModeRGBA, ModeRGBA => true
  | _, _ => false
  end.

(** [Image.getbands()]. *)
Definition getbands (m : Mode) : list string :=
  match m with
  | ModeRGB => ["R"; "G"; "B"]%string
  | ModeRGBA => ["R"; "G"; "B"; "A"]%string
  end.

(** A colour 4-tuple.  Pillow stores [RGB] pixels in four bytes as well;
    the last one is padding, always 255. *)
Record Pixel : Type := mkPixel { pr : Z; pg : Z; pb : Z; pa : Z }.

Record Image : Type := mkImage {
  im_mode : Mode;
  im_size : Z * Z;                 (* (width, height) *)
  im_px : Z -> Z -> Pixel          (* pixel at column x, row y *)
}.

Definition in_canvas (size : Z * Z) (px py : Z) : bool :=
  (0 <=? px) && (px <? fst size) && (0 <=? py) && (py <? snd size).

(** [Image.new(mode, size, color)]. *)
Definition Image_new (mode : Mode) (size : Z * Z) (color : Pixel) : Image :=
  mkImage mode size (fun _ _ => color).

(** [im.convert(mode)]: towards [RGBA] an opaque alpha band is added,
    towards [RGB] the alpha band is dropped. *)
Definition convert (im : Image) (mode : Mode) : Image :=
  match im_mode im, mode with
  | ModeRGB, ModeRGB | ModeRGBA, ModeRGBA =>
      mkImage mode (im_size im) (im_px im)
  | ModeRGB, ModeRGBA | ModeRGBA, ModeRGB =>
      mkImage mode (im_size im)
        (fun px py => let p := im_px im px py in mkPixel (pr p) (pg p) (pb p) 255)
  end.

Inductive Font : Type :=
| FreeTypeFont (path : string) (size : Z)
| DefaultFont.

(** [ImageDraw.rectangle(xy, fill)] on an [RGBA] buffer: the ink
    replaces the pixels of the closed box, clipped to the canvas. *)
Definition draw_rectangle (im : Image) (xy : Z * Z * Z * Z) (fill : Pixel) : Image :=
  mkImage (im_mode im) (im_size im)
    (fun px py =>
       let '(x0, y0, x1, y1) := xy in
       if in_canvas (im_size im) px py
          && (x0 <=? px) && (px <=? x1) && (y0 <=? py) && (py <=? y1)
       then fill else im_px im px py).

End PIL.
Export PIL.

(** ** The platform: fonts, raster arithmetic, network and codecs

    Everything below is code of Pillow, FreeType, requests and urllib, not
    of this repository.  The program is verified for every platform. *)

Record ParseResult : Type := mkParseResult { scheme : string; netloc : string }.

Record Response : Type := mkResponse { status_code : Z; content : list Byte.byte }.

Class Platform : Type := {
  (** [ImageFont.truetype(path, size)] finds the font file *)
  font_installed : string -> bool;
  (** [font.getbbox(text)]: (left, top, right, bottom) *)
  getbbox : Font -> string -> Z * Z * Z * Z;
  (** glyph coverage, 0..255, at a displacement from the text origin *)
  getmask : Font -> string -> Z -> Z -> Z;
  (** ink blended into a destination pixel through a coverage value *)
  blend : Pixel -> Pixel -> Z -> Pixel;
  (** alpha-over of a source pixel on a destination pixel *)
  over : Pixel -> Pixel -> Pixel;
  (** [urllib.parse.urlparse(url)] *)
  urlparse : string -> LibError + ParseResult;
  (** [requests.get(url, timeout=...)] *)
  requests_get : string -> Z -> LibError + Response;
  (** [Image.open(io.BytesIO(data))] *)
  Image_open : list Byte.byte -> LibError + Image;
  (** the JPEG encoder: image, quality, optimize *)
  jpeg_encode : Image -> Z -> bool -> list Byte.byte
}.

(** ** The heap of image objects and the monad of effects *)

Definition loc : Type := positive.

Inductive Event : Type :=
| EvGet (url : string) (timeout : Z)
| EvRectangle (target : loc) (xy : Z * Z * Z * Z) (fill : Pixel)
| EvText (target : loc) (xy : Z * Z) (text : string) (font : Font) (fill : Pixel).

Record World : Type := mkWorld {
  heap : gmap positive Image;
  trace : list Event
}.

(** A computation runs on a world and leaves a world, also when it
    raises: effects performed before the exception stay. *)
Definition M (A : Type) : Type := World -> Res A * World.

Definition ret {A : Type} (a : A) : M A := fun w => (Ok a, w).

Definition bind {A B : Type} (m : M A) (k : A -> M B) : M B :=
  fun w =>
    match m w with
    | (Ok a, w') => k a w'
    | (Raise e, w') => (Raise e, w')
    end.

Definition raise {A : Type} (e : Exn) : M A := fun w => (Raise e, w).

(** [try: m except ...: h]. *)
Definition try_except {A : Type} (m : M A) (h : Exn -> M A) : M A :=
  fun w =>
    match m w with
    | (Ok a, w') => (Ok a, w')
    | (Raise e, w') => h e w'
    end.

(** A library call that returns or raises. *)
Definition call {A : Type} (r : LibError + A) : M A :=
  match r with
  | inr a => ret a
  | inl e => raise (Exception e)
  end.

Definition emit (ev : Event) : M unit :=
  fun w => (Ok tt, mkWorld (heap w) (trace w ++ [ev])).

Declare Scope py_scope.
Delimit Scope py_scope with py.
Notation "x <- m ;; k" := (bind m (fun x => k))
  (at level 100, m at next level, right associativity) : py_scope.
Notation "m ;; k" := (bind m (fun _ => k))
  (at level 100, right associativity) : py_scope.
Local Open Scope py_scope.

(** A new object gets an address no live object has. *)
Definition alloc (im : Image) : M loc :=
  fun w =>
    let l := fresh (dom (heap w)) in
    (Ok l, mkWorld (<[l := im]> (heap w)) (trace w)).

Definition deref (l : loc) : M Image :=
  fun w =>
    match heap w !! l with
    | Some im => (Ok im, w)
    | None => (Raise (Exception (ValueError "no such object")), w)
    end.

(** In-place update of the buffer at [l]. *)
Definition update (l : loc) (f : Image -> Image) : M unit :=
  fun w =>
    match heap w !! l with
    | Some im => (Ok tt, mkWorld (<[l := f im]> (heap w)) (trace w))
    | None => (Raise (Exception (ValueError "no such object")), w)
    end.

(** The local variables of [_apply_watermark] that hold the geometry of
    the label. *)
Module L.
Record t : Type := mk {
  font_size : Z;
  font : Font;
  text_padding : Z;
  text_bbox : Z * Z * Z * Z;
  text_w : Z;
  text_h : Z;
  x : Z;
  y : Z;
  bg_padding_x : Z;
  bg_padding_y : Z;
  rect_coords : Z * Z * Z * Z;
  shadow_offset : Z
}.
End L.

(** ** Pillow calls, on objects of the heap *)

Section Program.
Context `{P : Platform}.

(** [ImageFont.truetype(path, size)] raises [OSError] when the font file
    cannot be opened. *)
Definition truetype (path : string) (size : Z) : LibError + Font :=
  if font_installed path then inr (FreeTypeFont path size)
  else inl (OSError "cannot open resource").

Definition load_default : Font := DefaultFont.

(** [draw.textbbox(xy, text, font=font)]: the font's box moved to [xy]. *)
Definition textbbox (xy : Z * Z) (text : string) (font : Font) : Z * Z * Z * Z :=
  let '(l, t, r, b) := getbbox font text in
  (l + fst xy, t + snd xy, r + fst xy, b + snd xy).

(** [draw.text(xy, text, font=font, fill=fill)]: the ink goes through the
    glyph mask placed at [xy], clipped to the canvas. *)
Definition draw_text (im : Image) (xy : Z * Z) (text : string) (font : Font)
    (fill : Pixel) : Image :=
  mkImage (im_mode im) (im_size im)
    (fun px py =>
       if in_canvas (im_size im) px py
       then blend (im_px im px py) fill (getmask font text (px - fst xy) (py - snd xy))
       else im_px im px py).

(** [Image.alpha_composite(im1, im2)] on pixel buffers: both must be
    [RGBA] and of one size. *)
Definition alpha_composite (im1 im2 : Image) : LibError + Image :=
  match im_mode im1 with
  | ModeRGB => inl (ValueError "image has wrong mode")
  | ModeRGBA =>
      if Mode_eqb (im_mode im1) (im_mode im2)
         && (fst (im_size im1) =? fst (im_size im2))
         && (snd (im_size im1) =? snd (im_size im2))
      then inr (mkImage ModeRGBA (im_size im1)
                  (fun px py => over (im_px im1 px py) (im_px im2 px py)))
      else inl (ValueError "images do not match")
  end.

Definition Image_size (img : loc) : M (Z * Z) :=
  im <- deref img ;; ret (im_size im).

Definition Image_copy (img : loc) : M loc :=
  im <- deref img ;; alloc im.

Definition Image_new_obj (mode : Mode) (size : Z * Z) (color : Pixel) : M loc :=
  alloc (Image_new mode size color).

Definition Image_convert (img : loc) (mode : Mode) : M loc :=
  im <- deref img ;; alloc (convert im mode).

Definition Image_alpha_composite (a b : loc) : M loc :=
  im1 <- deref a ;;
  im2 <- deref b ;;
  out <- call (alpha_composite im1 im2) ;;
  alloc out.

(** [draw.rectangle] and [draw.text] write into the buffer the [Draw]
    object was made for. *)
Definition ImageDraw_rectangle (draw : loc) (xy : Z * Z * Z * Z) (fill : Pixel) : M unit :=
  emit (EvRectangle draw xy fill) ;;
  update draw (fun im => draw_rectangle im xy fill).

Definition ImageDraw_text (draw : loc) (xy : Z * Z) (text : string) (font : Font)
    (fill : Pixel) : M unit :=
  emit (EvText draw xy text font fill) ;;
  update draw (fun im => draw_text im xy text font fill).

(** [out.save(buf, format="JPEG", ...)]: the JPEG writer refuses a
    buffer with an alpha band. *)
Definition Image_save_jpeg (img : loc) (quality : Z) (optimize : bool) : M (list Byte.byte) :=
  im <- deref img ;;
  match im_mode im with
  | ModeRGB => ret (jpeg_encode im quality optimize)
  | ModeRGBA => raise (Exception (OSError "cannot write mode RGBA as JPEG"))
  end.

(** [requests.get(url, timeout=t)]: one request leaves the process. *)
Definition requests_get_call (url : string) (timeout : Z) : M Response :=
  emit (EvGet url timeout) ;;
  call (requests_get url timeout).

(** ** main.py *)

(** [_load_image_from_url], lines 64-77. *)
Definition _load_image_from_url (url : string) : M loc :=
  try_except
    (parsed <- call (urlparse url) ;;
     if negb (String.eqb (scheme parsed) "http" || String.eqb (scheme parsed) "https")
     then raise (Exception (ValueError "Invalid URL scheme"))
     else
       resp <- requests_get_call url 10 ;;
       if negb (status_code resp =? 200)
       then raise (HTTPException 400 "Failed to fetch source image")
       else
         opened <- call (Image_open (content resp)) ;;
         o <- alloc opened ;;
         img <- Image_convert o ModeRGBA ;;
         ret img)
    (fun e =>
       match e with
       | HTTPException _ _ => raise e
       | Exception _ => raise (HTTPException 400 "Unable to load image from URL")
       end).

(** Lines 86-113 of [_apply_watermark]: the locals, in the order the
    function computes them.  They depend on the image only through its
    size; a font that cannot be opened is replaced by the built-in one. *)
Definition watermark_locals (width height : Z) (text : string) : L.t :=
  let font_size := Z.max 24 (width / 40) in
  let font :=
    match truetype "DejaVuSans.ttf" font_size with
    | inr f => f
    | inl _ => load_default
    end in
  let text_padding := Z.max 12 (font_size / 3) in
  let text_bbox := textbbox (0, 0) text font in
  let '(bb0, bb1, bb2, bb3) := text_bbox in
  let text_w := bb2 - bb0 in
  let text_h := bb3 - bb1 in
  let x := width - text_w - text_padding in
  let y := height - text_h - text_padding in
  let bg_padding_x := text_padding / 2 in
  let bg_padding_y := text_padding / 3 in
  let rect_coords :=
    (x - bg_padding_x,
     y - bg_padding_y,
     x + text_w + bg_padding_x,
     y + text_h + bg_padding_y) in
  let shadow_offset := Z.max 1 (font_size / 20) in
  L.mk font_size font text_padding text_bbox text_w text_h x y
    bg_padding_x bg_padding_y rect_coords shadow_offset.

(** [_apply_watermark], lines 80-118. *)
Definition _apply_watermark (img : loc) (text : string) : M loc :=
  size <- Image_size img ;;
  let '(width, height) := size in
  base <- Image_copy img ;;
  watermark_layer <- Image_new_obj ModeRGBA (width, height) (mkPixel 0 0 0 0) ;;
  let draw := watermark_layer in
  let v := watermark_locals width height text in
  ImageDraw_rectangle draw (L.rect_coords v) (mkPixel 0 0 0 90) ;;
  ImageDraw_text draw (L.x v + L.shadow_offset v, L.y v + L.shadow_offset v)
    text (L.font v) (mkPixel 0 0 0 200) ;;
  ImageDraw_text draw (L.x v, L.y v) text (L.font v) (mkPixel 255 255 255 220) ;;
  watermarked <- Image_alpha_composite base watermark_layer ;;
  Image_convert watermarked ModeRGB.

Record StreamingResponse : Type := mkStreamingResponse {
  body : list Byte.byte;
  media_type : string
}.

(** The default of the [text] parameter of [_apply_watermark] and the
    fallback of [watermark_image]. *)
Definition default_text : string := "made by afthab".

(** [watermark_image], lines 121-132. *)
Definition watermark_image (url : string) (text : option string) : M StreamingResponse :=
  img <- _load_image_from_url url ;;
  let wm_text :=
    match text with
    | Some s => if truthy text then s else default_text
    | None => default_text
    end in
  out <- _apply_watermark img wm_text ;;
  buf <- Image_save_jpeg out 90 true ;;
  ret (mkStreamingResponse buf "image/jpeg").

(** The overlay after the three drawing calls of [_apply_watermark], and
    the buffer [Image.alpha_composite] makes of it. *)
Definition overlay_of (size : Z * Z) (text : string) (v : L.t) : Image :=
  draw_text
    (draw_text
       (draw_rectangle (Image_new ModeRGBA size (mkPixel 0 0 0 0))
          (L.rect_coords v) (mkPixel 0 0 0 90))
       (L.x v + L.shadow_offset v, L.y v + L.shadow_offset v)
       text (L.font v) (mkPixel 0 0 0 200))
    (L.x v, L.y v) text (L.font v) (mkPixel 255 255 255 220).

Definition composed_of (im overlay : Image) : Image :=
  mkImage ModeRGBA (im_size im)
    (fun px py => over (im_px im px py) (im_px overlay px py)).

End Program.

(** The two errors the loader answers with, lines 71 and 77. *)
Definition failed_fetch : Exn := HTTPException 400 "Failed to fetch source image".

Definition unable : Exn := HTTPException 400 "Unable to load image from URL".

(** ** What a run leaves in the trace *)

(** The pixel coordinates a drawing call is given. *)
Definition referenced (ev : Event) : list (Z * Z) :=
  match ev with
  | EvGet _ _ => []
  | EvRectangle _ (x0, y0, x1, y1) _ => [(x0, y0); (x1, y1)]
  | EvText _ xy _ _ _ => [xy]
  end.

Definition inside (size : Z * Z) (p : Z * Z) : Prop :=
  0 <= fst p < fst size /\ 0 <= snd p < snd size.

Definition rectangles (evs : list Event) : list (loc * (Z * Z * Z * Z) * Pixel) :=
  flat_map (fun ev =>
    match ev with
    | EvRectangle target xy fill => [(target, xy, fill)]
    | _ => []
    end) evs.

Definition texts (evs : list Event) : list (loc * (Z * Z) * string * Font * Pixel) :=
  flat_map (fun ev =>
    match ev with
    | EvText target xy text font fill => [(target, xy, text, font, fill)]
    | _ => []
    end) evs.

(** The buffer a drawing call writes into. *)
Definition draws_on (ev : Event) : option loc :=
  match ev with
  | EvGet _ _ => None
  | EvRectangle target _ _ => Some target
  | EvText target _ _ _ _ => Some target
  end.

(** ** A reference platform

    A small platform on which the program runs by computation: no
    TrueType font is installed, the built-in font has cells of 6 by 11
    pixels, and the network serves three resources. *)

Module Ref.

Definition is_alpha (c : ascii) : bool :=
  let n := N_of_ascii c in
  ((65 <=? n) && (n <=? 90) || (97 <=? n) && (n <=? 122))%N.

Definition is_scheme_char (c : ascii) : bool :=
  let n := N_of_ascii c in
  is_alpha c || ((48 <=? n) && (n <=? 57))%N
  || Ascii.eqb c "+" || Ascii.eqb c "-" || Ascii.eqb c ".".

Definition lower (c : ascii) : ascii :=
  let n := N_of_ascii c in
  if ((65 <=? n) && (n <=? 90))%N then ascii_of_N (n + 32) else c.

Fixpoint map_string (f : ascii -> ascii) (s : string) : string :=
  match s with
  | EmptyString => EmptyString
  | String c r => String (f c) (map_string f r)
  end.

Fixpoint all_string (f : ascii -> bool) (s : string) : bool :=
  match s with
  | EmptyString => true
  | String c r => f c && all_string f r
  end.

(** The text before the first colon and the text after it. *)
Fixpoint split_colon (s : string) : option (string * string) :=
  match s with
  | EmptyString => None
  | String c r =>
      if Ascii.eqb c ":" then Some (EmptyString, r)
      else match split_colon r with
           | Some (p, q) => Some (String c p, q)
           | None => None
           end
  end.

(** The scheme rule of [urlsplit]: a letter followed by scheme
    characters up to the first colon, lower-cased; otherwise no scheme.
    A stand-in that reads the scheme only: what follows the colon is kept
    whole in the second field, nothing is stripped and nothing raises. *)
Definition urlparse (url : string) : LibError + ParseResult :=
  match split_colon url with
  | Some (String c p, rest) =>
      if is_alpha c && all_string is_scheme_char p
      then inr (mkParseResult (map_string lower (String c p)) rest)
      else inr (mkParseResult EmptyString url)
  | _ => inr (mkParseResult EmptyString url)
  end.

(** A raw picture format: a width byte, a height byte, then one grey
    level per pixel, row by row. *)
Definition Image_open (data : list Byte.byte) : LibError + Image :=
  match data with
  | bw :: bh :: levels =>
      let width := Z.of_N (Byte.to_N bw) in
      let height := Z.of_N (Byte.to_N bh) in
      if Z.of_nat (List.length levels) =? width * height
      then inr (mkImage ModeRGB (width, height)
                  (fun px py =>
                     let g := Z.of_N (Byte.to_N
                                (nth (Z.to_nat (py * width + px)) levels Byte.x00)) in
                     mkPixel g g g 255))
      else inl (OSError "cannot identify image file")
  | _ => inl (OSError "cannot identify image file")
  end.

Definition picture : list Byte.byte :=
  [Byte.x04; Byte.x03;
   Byte.x10; Byte.x20; Byte.x30; Byte.x40;
   Byte.x50; Byte.x60; Byte.x70; Byte.x80;
   Byte.x90; Byte.xa0; Byte.xb0; Byte.xc0].

Definition requests_get (url : string) (timeout : Z) : LibError + Response :=
  if String.eqb url "https://example.com/a.raw" then inr (mkResponse 200 picture)
  else if String.eqb url "https://example.com/notes.txt"
       then inr (mkResponse 200 [Byte.x68; Byte.x69])
  else if String.eqb url "https://example.com/missing.raw" then inr (mkResponse 404 [])
  else inl (RequestException "connection failed").

Definition mix (d i m : Z) : Z := (d * (255 - m) + i * m) / 255.

Definition blend (d ink : Pixel) (m : Z) : Pixel :=
  mkPixel (mix (pr d) (pr ink) m) (mix (pg d) (pg ink) m)
          (mix (pb d) (pb ink) m) (mix (pa d) (pa ink) m).

Definition over (dst src : Pixel) : Pixel :=
  if pa src =? 0 then dst
  else mkPixel (mix (pr dst) (pr src) (pa src)) (mix (pg dst) (pg src) (pa src))
               (mix (pb dst) (pb src) (pa src)) (mix (pa dst) 255 (pa src)).

Definition getbbox (f : Font) (text : string) : Z * Z * Z * Z :=
  (0, 0, 6 * Z.of_nat (String.length text), 11).

Definition getmask (f : Font) (text : string) (dx dy : Z) : Z :=
  if (0 <=? dx) && (dx <? 6 * Z.of_nat (String.length text)) && (0 <=? dy) && (dy <? 11)
  then 255 else 0.

Definition jpeg_encode (im : Image) (quality : Z) (optimize : bool) : list Byte.byte :=
  [Byte.xff; Byte.xd8; Byte.xff; Byte.xd9].

Definition platform : Platform :=
  Build_Platform (fun _ => false) getbbox getmask blend over
    urlparse requests_get Image_open jpeg_encode.

(** The decoded picture, the buffer the loader makes of it, and a world
    holding that buffer as its only object. *)
Definition source : Image :=
  match Image_open picture with
  | inr im => im
  | inl _ => Image_new ModeRGB (0, 0) (mkPixel 0 0 0 255)
  end.

Definition loaded : Image := convert source ModeRGBA.

Definition world0 : World := mkWorld {[ 1%positive := loaded ]} [].

(** A world holding a plain buffer of 200 by 100 pixels, wide enough for
    the default label. *)
Definition canvas : Image := Image_new ModeRGBA (200, 100) (mkPixel 30 60 90 255).

Definition world1 : World := mkWorld {[ 1%positive := canvas ]} [].

End Ref.

(** ** The catalog, lines 22-61 *)

Module W.
Record t : Type := mk { id : string; title : string; src : string }.
End W.

Definition WALLPAPERS : list W.t :=
  [
   W.mk "w1" "Peaks at Dawn"
     "https://images.unsplash.com/photo-1501785888041-af3ef285b470?w=3840&q=80&auto=format&fit=crop";
   W.mk "w2" "Forest Mist"
     "https://images.unsplash.com/photo-1441974231531-c6227db76b6e?w=3840&q=80&auto=format&fit=crop";
   W.mk "w3" "Desert Dunes"
     "https://images.unsplash.com/photo-1507525428034-b723cf961d3e?w=3840&q=80&auto=format&fit=crop";
   W.mk "w4" "Starry Night"
     "https://images.unsplash.com/photo-1444703686981-a3abbc4d4fe3?w=3840&q=80&auto=format&fit=crop";
   W.mk "w5" "Aurora Sky"
     "https://images.unsplash.com/photo-1500530855697-b586d89ba3ee?w=3840&q=80&auto=format&fit=crop"
  ].

(** [list_wallpapers], lines 58-61: a dict with the one key [items]. *)
Definition list_wallpapers : gmap string (list W.t) := {[ "items"%string := WALLPAPERS ]}.

(** The requests a stretch of the trace holds: url and timeout. *)
Definition requests_sent (evs : list Event) : list (string * Z) :=
  flat_map (fun ev =>
    match ev with
    | EvGet url timeout => [(url, timeout)]
    | _ => []
    end) evs.

(** ** The diagnostic endpoint, lines 135-172

    [test_database] fills a dict step by step; what it has written stays
    when a later step raises.  A Python [str] is held as its UTF-8
    encoding, so a slice counts code points, not bytes. *)

Module Diag.

Inductive Value : Type :=
| VNone
| VStr (s : string)
| VList (l : list string).

(** The exceptions the handlers tell apart: [ImportError], caught first,
    and every other [Exception]. *)
Inductive PyExn : Type :=
| ImportError (msg : string)
| OtherException (msg : string).

(** [str(e)]. *)
Definition str (e : PyExn) : string :=
  match e with
  | ImportError msg => msg
  | OtherException msg => msg
  end.

(** A byte that continues a UTF-8 character. *)
Definition is_continuation (c : ascii) : bool :=
  let n := N_of_ascii c in ((128 <=? n) && (n <? 192))%N.

(** [len(s)]: the number of code points. *)
Fixpoint py_len (s : string) : nat :=
  match s with
  | EmptyString => O
  | String c r => if is_continuation c then py_len r else S (py_len r)
  end.

(** [s[:n]]: the first [n] code points. *)
Fixpoint py_take (n : nat) (s : string) : string :=
  match s with
  | EmptyString => EmptyString
  | String c r =>
      if is_continuation c then String c (py_take n r)
      else match n with
           | O => EmptyString
           | S n' => String c (py_take n' r)
           end
  end.

(** What the endpoint uses of the object [db]: its attribute [name], when
    it has one, and the method [list_collection_names], which returns or
    raises. *)
Record Db : Type := mkDb {
  name : option Value;
  list_collection_names : PyExn + list string
}.

Definition D (A : Type) : Type :=
  gmap string Value -> (PyExn + A) * gmap string Value.

Definition dret {A : Type} (a : A) : D A := fun r => (inr a, r).

Definition dbind {A B : Type} (m : D A) (k : A -> D B) : D B :=
  fun r =>
    match m r with
    | (inr a, r') => k a r'
    | (inl e, r') => (inl e, r')
    end.

Definition dtry {A : Type} (m : D A) (h : PyExn -> D A) : D A :=
  fun r =>
    match m r with
    | (inr a, r') => (inr a, r')
    | (inl e, r') => h e r'
    end.

Definition dcall {A : Type} (v : PyExn + A) : D A := fun r => (v, r).

(** [response[key] = value]. *)
Definition setitem (key : string) (value : Value) : D unit :=
  fun r => (inr tt, <[key := value]> r).

Declare Scope diag_scope.
Delimit Scope diag_scope with diag.
Notation "x <- m ;; k" := (dbind m (fun x => k))
  (at level 100, m at next level, right associativity) : diag_scope.
Notation "m ;; k" := (dbind m (fun _ => k))
  (at level 100, right associativity) : diag_scope.

(** The dict of lines 137-144. *)
Definition response0 : gmap string Value :=
  <["backend"%string := VStr "✅ Running"]>
  (<["database"%string := VStr "❌ Not Available"]>
  (<["database_url"%string := VNone]>
  (<["database_name"%string := VNone]>
  (<["connection_status"%string := VStr "Not Connected"]>
  (<["collections"%string := VList []]> ∅))))).

(** [test_database].  [database] is what [from database import db] gives:
    an exception, [None] or an object; [getenv] is [os.getenv]. *)
Definition test_database (database : PyExn + option Db)
    (getenv : string -> option string) : PyExn + gmap string Value :=
  fst
    ((dtry
        (db <- dcall database ;;
         match db with
         | Some db =>
             setitem "database" (VStr "✅ Available") ;;
             setitem "database_url" (VStr "✅ Configured") ;;
             setitem "database_name"
               (match name db with
                | Some v => v
                | None => VStr "✅ Connected"
                end) ;;
             setitem "connection_status" (VStr "Connected") ;;
             dtry
               (collections <- dcall (list_collection_names db) ;;
                setitem "collections" (VList (firstn 10 collections)) ;;
                setitem "database" (VStr "✅ Connected & Working"))
               (fun e =>
                  setitem "database"
                    (VStr ("⚠️  Connected but Error: " ++ py_take 50 (str e))))
         | None =>
             setitem "database" (VStr "⚠️  Available but not initialized")
         end)
        (fun e =>
           match e with
           | ImportError _ =>
               setitem "database"
                 (VStr "❌ Database module not found (run enable-database first)")
           | OtherException _ =>
               setitem "database" (VStr ("❌ Error: " ++ py_take 50 (str e)))
           end) ;;
      setitem "database_url"
        (VStr (if truthy (getenv "DATABASE_URL") then "✅ Set" else "❌ Not Set")) ;;
      setitem "database_name"
        (VStr (if truthy (getenv "DATABASE_NAME") then "✅ Set" else "❌ Not Set")) ;;
      fun response => (inr response, response))%diag response0).

End Diag.

(** ** The endpoint with an encoder that can fail

    [out.save] on line 129 stands outside every handler, and a JPEG
    encoder does not take every buffer: it refuses a picture with a side
    above 65500 pixels, for one.  Here the encoder is a function that
    returns the bytes or raises.  [watermark_image] above is this
    endpoint for an encoder that always returns. *)

Section Encoder.
Context `{P : Platform}.

Definition Image_save_jpeg_with (encode : Image -> Z -> bool -> LibError + list Byte.byte)
    (img : loc) (quality : Z) (optimize : bool) : M (list Byte.byte) :=
  im <- deref img ;;
  match im_mode im with
  | ModeRGB => call (encode im quality optimize)
  | ModeRGBA => raise (Exception (OSError "cannot write mode RGBA as JPEG"))
  end.

(** [watermark_image], lines 121-132, with that encoder on line 129. *)
Definition watermark_image_with (encode : Image -> Z -> bool -> LibError + list Byte.byte)
    (url : string) (text : option string) : M StreamingResponse :=
  img <- _load_image_from_url url ;;
  let wm_text :=
    match text with
    | Some s => if truthy text then s else default_text
    | None => default_text
    end in
  out <- _apply_watermark img wm_text ;;
  buf <- Image_save_jpeg_with encode out 90 true ;;
  ret (mkStreamingResponse buf "image/jpeg").

End Encoder.

(** ** More reference platforms *)

Module Ref2.

(** An encoder with the size limits of JPEG. *)
Definition encode_limited (im : Image) (quality : Z) (optimize : bool)
    : LibError + list Byte.byte :=
  if (1 <=? fst (im_size im)) && (fst (im_size im) <=? 65500)
     && (1 <=? snd (im_size im)) && (snd (im_size im) <=? 65500)
  then inr (Ref.jpeg_encode im quality optimize)
  else inl (OSError "encoder error").

(** A decoder for a format that holds wider pictures than JPEG: every
    body decodes to a grey strip of 70000 by 1 pixels. *)
Definition open_wide (data : list Byte.byte) : LibError + Image :=
  inr (Image_new ModeRGB (70000, 1) (mkPixel 128 128 128 255)).

Definition wide_platform : Platform :=
  Build_Platform (fun _ => false) Ref.getbbox Ref.getmask Ref.blend Ref.over
    Ref.urlparse Ref.requests_get open_wide Ref.jpeg_encode.




(** A buffer of 4000 by 2160 pixels, alone in its world. *)
Definition poster : Image := Image_new ModeRGBA (4000, 2160) (mkPixel 30 60 90 255).

Definition world_poster : World := mkWorld {[ 1%positive := poster ]} [].

End Ref2.

(** ** The diagnostic endpoint for every import and every [db]

    [Diag] above takes an import and a [db] that raise nothing but
    instances of [Exception], and a [db] whose attribute [name] is a plain
    value or absent.  Here the import, the attribute and the listing may
    raise anything: a [BaseException] outside [Exception] ([SystemExit],
    [KeyboardInterrupt]) passes the handlers of lines 158, 163 and 165,
    and [hasattr] on line 152 passes on every exception but
    [AttributeError]. *)

Module DiagAny.

Inductive Raised : Type :=
| Ex (e : Diag.PyExn)          (* an instance of Exception *)
| BaseEx (msg : string).       (* a BaseException outside Exception *)

(** What reading [db.name] does: it gives a value, raises
    [AttributeError] (the attribute is missing), or raises something
    else. *)
Inductive Attr : Type :=
| Has (v : Diag.Value)
| Missing
| Raises (e : Raised).

Record Db : Type := mkDb {
  name : Attr;
  list_collection_names : Raised + list string
}.

Definition D (A : Type) : Type :=
  gmap string Diag.Value -> (Raised + A) * gmap string Diag.Value.

Definition dbind {A B : Type} (m : D A) (k : A -> D B) : D B :=
  fun r =>
    match m r with
    | (inr a, r') => k a r'
    | (inl e, r') => (inl e, r')
    end.

(** [try: m except Exception as e: h e]; the clauses of lines 163-166 are
    told apart inside [h]. *)
Definition dtry {A : Type} (m : D A) (h : Diag.PyExn -> D A) : D A :=
  fun r =>
    match m r with
    | (inr a, r') => (inr a, r')
    | (inl (Ex e), r') => h e r'
    | (inl (BaseEx msg), r') => (inl (BaseEx msg), r')
    end.

Definition dcall {A : Type} (v : Raised + A) : D A := fun r => (v, r).

Definition setitem (key : string) (value : Diag.Value) : D unit :=
  fun r => (inr tt, <[key := value]> r).

(** [db.name if hasattr(db, "name") else ...], the right-hand side of
    line 152: [hasattr] answers [False] on [AttributeError] only and lets
    every other exception through. *)
Definition name_or_mark (db : Db) : Raised + Diag.Value :=
  match name db with
  | Has v => inr v
  | Missing => inr (Diag.VStr "✅ Connected")
  | Raises e => inl e
  end.

Declare Scope diagany_scope.
Delimit Scope diagany_scope with diagany.
Notation "x <- m ;; k" := (dbind m (fun x => k))
  (at level 100, m at next level, right associativity) : diagany_scope.
Notation "m ;; k" := (dbind m (fun _ => k))
  (at level 100, right associativity) : diagany_scope.

(** [test_database], lines 135-172. *)
Definition test_database (database : Raised + option Db)
    (getenv : string -> option string) : Raised + gmap string Diag.Value :=
  fst
    ((dtry
        (db <- dcall database ;;
         match db with
         | Some db =>
             setitem "database" (Diag.VStr "✅ Available") ;;
             setitem "database_url" (Diag.VStr "✅ Configured") ;;
             v <- dcall (name_or_mark db) ;;
             setitem "database_name" v ;;
             setitem "connection_status" (Diag.VStr "Connected") ;;
             dtry
               (collections <- dcall (list_collection_names db) ;;
                setitem "collections" (Diag.VList (firstn 10 collections)) ;;
                setitem "database" (Diag.VStr "✅ Connected & Working"))
               (fun e =>
                  setitem "database"
                    (Diag.VStr ("⚠️  Connected but Error: " ++ Diag.py_take 50 (Diag.str e))))
         | None =>
             setitem "database" (Diag.VStr "⚠️  Available but not initialized")
         end)
        (fun e =>
           match e with
           | Diag.ImportError _ =>
               setitem "database"
                 (Diag.VStr "❌ Database module not found (run enable-database first)")
           | Diag.OtherException _ =>
               setitem "database"
                 (Diag.VStr ("❌ Error: " ++ Diag.py_take 50 (Diag.str e)))
           end) ;;
      setitem "database_url"
        (Diag.VStr (if truthy (getenv "DATABASE_URL") then "✅ Set" else "❌ Not Set")) ;;
      setitem "database_name"
        (Diag.VStr (if truthy (getenv "DATABASE_NAME") then "✅ Set" else "❌ Not Set")) ;;
      fun response => (inr response, response))%diagany Diag.response0).

(** The exception that passes every handler, when there is one: raised
    by the import, by reading [name], or by the listing when [name] was
    read without an exception. *)
Definition escapes (database : Raised + option Db) : option string :=
  match database with
  | inl (BaseEx msg) => Some msg
  | inl (Ex _) => None
  | inr None => None
  | inr (Some db) =>
      match name db with
      | Raises (BaseEx msg) => Some msg
      | Raises (Ex _) => None
      | Has _ | Missing =>
          match list_collection_names db with
          | inl (BaseEx msg) => Some msg
          | _ => None
          end
      end
  end.

(** The imports and objects of [Diag], as inputs of this model. *)
Definition of_result {A : Type} (r : Diag.PyExn + A) : Raised + A :=
  match r with
  | inl e => inl (Ex e)
  | inr a => inr a
  end.

Definition of_db (db : Diag.Db) : Db :=
  mkDb (match Diag.name db with Some v => Has v | None => Missing end)
       (of_result (Diag.list_collection_names db)).

Definition of_import (database : Diag.PyExn + option Diag.Db) : Raised + option Db :=
  match database with
  | inl e => inl (Ex e)
  | inr db => inr (option_map of_db db)
  end.

(** The two writes of lines 169-170, and the write of the handlers of
    lines 163-166. *)
Definition finish (getenv : string -> option string) (r : gmap string Diag.Value)
    : Raised + gmap string Diag.Value :=
  inr (<["database_name"%string :=
           Diag.VStr (if truthy (getenv "DATABASE_NAME") then "✅ Set" else "❌ Not Set")]>
       (<["database_url"%string :=
            Diag.VStr (if truthy (getenv "DATABASE_URL") then "✅ Set" else "❌ Not Set")]> r)).

Definition caught (e : Diag.PyExn) (r : gmap string Diag.Value) : gmap string Diag.Value :=
  match e with
  | Diag.ImportError _ =>
      <["database"%string :=
          Diag.VStr "❌ Database module not found (run enable-database first)"]> r
  | Diag.OtherException msg =>
      <["database"%string := Diag.VStr ("❌ Error: " ++ Diag.py_take 50 msg)]> r
  end.

End DiagAny.

(** * Properties *)

(** ** The heap primitives *)

Lemma bind_ok {A B : Type} (m : M A) (k : A -> M B) (w w' : World) (a : A) :
  m w = (Ok a, w') -> bind m k w = k a w'.
Proof. intros H. unfold bind. now rewrite H. Qed.

Lemma bind_raise {A B : Type} (m : M A) (k : A -> M B) (w w' : World) (e : Exn) :
  m w = (Raise e, w') -> bind m k w = (Raise e, w').
Proof. intros H. unfold bind. now rewrite H. Qed.

Lemma deref_ok (w : World) (l : loc) (im : Image) :
  heap w !! l = Some im -> deref l w = (Ok im, w).
Proof. intros H. unfold deref. now rewrite H. Qed.

Lemma update_ok (w : World) (l : loc) (im : Image) (f : Image -> Image) :
  heap w !! l = Some im ->
  update l f w = (Ok tt, mkWorld (<[l := f im]> (heap w)) (trace w)).
Proof. intros H. unfold update. now rewrite H. Qed.

Lemma fresh_not_live (h : gmap positive Image) : h !! fresh (dom h) = None.
Proof. apply not_elem_of_dom. apply is_fresh. Qed.

Lemma fresh_ne_live (h : gmap positive Image) (l : loc) (im : Image) :
  h !! l = Some im -> fresh (dom h) <> l.
Proof.
  intros H E. subst l. rewrite fresh_not_live in H. discriminate.
Qed.

(** Allocation leaves every live object as it was. *)
Lemma alloc_frame (h : gmap positive Image) (l : loc) (im new : Image) :
  h !! l = Some im -> <[fresh (dom h) := new]> h !! l = Some im.
Proof.
  intros H. rewrite lookup_insert_ne; [exact H|]. now apply fresh_ne_live with im.
Qed.

Section Calls.
Context `{P : Platform}.

Lemma Image_size_ok (w : World) (l : loc) (im : Image) :
  heap w !! l = Some im -> Image_size l w = (Ok (im_size im), w).
Proof. intros H. unfold Image_size. now rewrite (bind_ok _ _ _ _ _ (deref_ok _ _ _ H)). Qed.

Lemma Image_copy_ok (w : World) (l : loc) (im : Image) :
  heap w !! l = Some im ->
  Image_copy l w =
    (Ok (fresh (dom (heap w))), mkWorld (<[fresh (dom (heap w)) := im]> (heap w)) (trace w)).
Proof. intros H. unfold Image_copy. now rewrite (bind_ok _ _ _ _ _ (deref_ok _ _ _ H)). Qed.

Lemma Image_convert_ok (w : World) (l : loc) (im : Image) (mode : Mode) :
  heap w !! l = Some im ->
  Image_convert l mode w =
    (Ok (fresh (dom (heap w))),
     mkWorld (<[fresh (dom (heap w)) := convert im mode]> (heap w)) (trace w)).
Proof. intros H. unfold Image_convert. now rewrite (bind_ok _ _ _ _ _ (deref_ok _ _ _ H)). Qed.

Lemma ImageDraw_rectangle_ok (w : World) (l : loc) (im : Image) xy fill :
  heap w !! l = Some im ->
  ImageDraw_rectangle l xy fill w =
    (Ok tt, mkWorld (<[l := draw_rectangle im xy fill]> (heap w))
              (trace w ++ [EvRectangle l xy fill])).
Proof.
  intros H. unfold ImageDraw_rectangle, bind, emit.
  now rewrite (update_ok (mkWorld (heap w) _) l im _ H).
Qed.

Lemma ImageDraw_text_ok (w : World) (l : loc) (im : Image) xy text font fill :
  heap w !! l = Some im ->
  ImageDraw_text l xy text font fill w =
    (Ok tt, mkWorld (<[l := draw_text im xy text font fill]> (heap w))
              (trace w ++ [EvText l xy text font fill])).
Proof.
  intros H. unfold ImageDraw_text, bind, emit.
  now rewrite (update_ok (mkWorld (heap w) _) l im _ H).
Qed.

Lemma alpha_composite_ok (im1 im2 : Image) :
  im_mode im1 = ModeRGBA -> im_mode im2 = ModeRGBA -> im_size im1 = im_size im2 ->
  alpha_composite im1 im2 = inr (composed_of im1 im2).
Proof.
  intros H1 H2 Hs. destruct im1 as [m1 s1 p1], im2 as [m2 s2 p2].
  simpl in *. subst m1 m2 s2. unfold alpha_composite, composed_of. simpl.
  now rewrite !Z.eqb_refl.
Qed.

Lemma Image_alpha_composite_ok (w : World) (a b : loc) (im1 im2 : Image) :
  heap w !! a = Some im1 -> heap w !! b = Some im2 ->
  im_mode im1 = ModeRGBA -> im_mode im2 = ModeRGBA -> im_size im1 = im_size im2 ->
  Image_alpha_composite a b w =
    (Ok (fresh (dom (heap w))),
     mkWorld (<[fresh (dom (heap w)) := composed_of im1 im2]> (heap w)) (trace w)).
Proof.
  intros Ha Hb H1 H2 Hs. unfold Image_alpha_composite.
  rewrite (bind_ok _ _ _ _ _ (deref_ok _ _ _ Ha)).
  rewrite (bind_ok _ _ _ _ _ (deref_ok _ _ _ Hb)).
  rewrite (alpha_composite_ok _ _ H1 H2 Hs). reflexivity.
Qed.

(** The whole run of [_apply_watermark] on an [RGBA] buffer, in closed
    form: four objects are allocated, three drawing calls are made. *)
Lemma apply_watermark_run (w : World) (img : loc) (im : Image) (text : string) :
  heap w !! img = Some im ->
  im_mode im = ModeRGBA ->
  let v := watermark_locals (fst (im_size im)) (snd (im_size im)) text in
  let base := fresh (dom (heap w)) in
  let h1 := <[base := im]> (heap w) in
  let layer := fresh (dom h1) in
  let overlay := overlay_of (im_size im) text v in
  let h2 := <[layer := overlay]> h1 in
  let watermarked := fresh (dom h2) in
  let h3 := <[watermarked := composed_of im overlay]> h2 in
  let out := fresh (dom h3) in
  _apply_watermark img text w =
    (Ok out,
     mkWorld (<[out := convert (composed_of im overlay) ModeRGB]> h3)
       (trace w ++
          [EvRectangle layer (L.rect_coords v) (mkPixel 0 0 0 90);
           EvText layer (L.x v + L.shadow_offset v, L.y v + L.shadow_offset v)
             text (L.font v) (mkPixel 0 0 0 200);
           EvText layer (L.x v, L.y v) text (L.font v) (mkPixel 255 255 255 220)])).
Proof.
  intros Himg Hmode v base h1 layer overlay h2 watermarked h3 out.
  unfold _apply_watermark.
  rewrite (bind_ok _ _ _ _ _ (Image_size_ok _ _ _ Himg)).
  destruct (im_size im) as [width height] eqn:Hsize.
  rewrite (bind_ok _ _ _ _ _ (Image_copy_ok _ _ _ Himg)).
  unfold Image_new_obj.
  erewrite bind_ok by reflexivity.
  cbn [heap trace fst snd] in *. fold base h1 layer.
  erewrite bind_ok by (apply ImageDraw_rectangle_ok; apply lookup_insert_eq).
  erewrite bind_ok by (apply ImageDraw_text_ok; apply lookup_insert_eq).
  erewrite bind_ok by (apply ImageDraw_text_ok; apply lookup_insert_eq).
  cbn [heap trace]. rewrite !insert_insert_eq.
  fold v. fold (overlay_of (width, height) text v). fold overlay h2.
  assert (Hbase : h2 !! base = Some im).
  { unfold h2. rewrite lookup_insert_ne.
    - apply lookup_insert_eq.
    - apply fresh_ne_live with im. apply lookup_insert_eq. }
  erewrite bind_ok; cycle 1.
  { apply Image_alpha_composite_ok with (im1 := im) (im2 := overlay).
    - exact Hbase.
    - apply lookup_insert_eq.
    - exact Hmode.
    - reflexivity.
    - rewrite Hsize. reflexivity. }
  cbn [heap trace]. fold watermarked h3.
  rewrite (Image_convert_ok _ _ (composed_of im overlay)) by apply lookup_insert_eq.
  cbn [heap trace]. fold out. rewrite <- !app_assoc. reflexivity.
Qed.

End Calls.

(** ** Pixels of the plate *)

(** On a transparent overlay, the rectangle call leaves the ink on the
    canvas pixels of the closed box and nothing elsewhere. *)
Lemma plate_pixels (size : Z * Z) (x0 y0 x1 y1 : Z) (fill : Pixel) (px py : Z) :
  im_px (draw_rectangle (Image_new ModeRGBA size (mkPixel 0 0 0 0)) (x0, y0, x1, y1) fill)
    px py =
    if in_canvas size px py && (x0 <=? px) && (px <=? x1) && (y0 <=? py) && (py <=? y1)
    then fill else mkPixel 0 0 0 0.
Proof. reflexivity. Qed.

Lemma plate_inside (size : Z * Z) (x0 y0 x1 y1 : Z) (fill : Pixel) (px py : Z) :
  0 <= px < fst size -> 0 <= py < snd size ->
  x0 <= px <= x1 -> y0 <= py <= y1 ->
  im_px (draw_rectangle (Image_new ModeRGBA size (mkPixel 0 0 0 0)) (x0, y0, x1, y1) fill)
    px py = fill.
Proof.
  intros Hx Hy Bx By. rewrite plate_pixels. unfold in_canvas.
  repeat match goal with
         | |- context [?a <=? ?b] => replace (a <=? b) with true by (symmetry; now apply Z.leb_le)
         | |- context [?a <? ?b] => replace (a <? b) with true by (symmetry; now apply Z.ltb_lt)
         end.
  reflexivity.
Qed.

(** ** The loader's conversion *)

Lemma convert_rgba_mode (src : Image) : im_mode (convert src ModeRGBA) = ModeRGBA.
Proof. unfold convert. now destruct (im_mode src). Qed.

Lemma convert_size (src : Image) (mode : Mode) : im_size (convert src mode) = im_size src.
Proof. unfold convert. now destruct (im_mode src), mode. Qed.

Lemma convert_mode (src : Image) (mode : Mode) : im_mode (convert src mode) = mode.
Proof. unfold convert. now destruct (im_mode src), mode. Qed.

(** An opaque [RGB] picture reaches the compositor with alpha 255
    everywhere. *)
Lemma convert_rgba_opaque (src : Image) (px py : Z) :
  im_mode src = ModeRGB -> pa (im_px (convert src ModeRGBA) px py) = 255.
Proof. intros H. unfold convert. now rewrite H. Qed.

(** ** The compositor *)

(** C1. For every image buffer the loader hands over (mode [RGBA]; an
    opaque RGB picture arrives in this form, see [convert_rgba_opaque]),
    [_apply_watermark] returns, and the buffer it returns has the width and
    height of the input and the bands R, G, B: no alpha band. *)
Theorem composite_same_size_no_alpha `{P : Platform}
    (w : World) (img : loc) (im : Image) (text : string) :
  heap w !! img = Some im ->
  im_mode im = ModeRGBA ->
  exists (out : loc) (w' : World) (res : Image),
    _apply_watermark img text w = (Ok out, w') /\
    heap w' !! out = Some res /\
    im_size res = im_size im /\
    im_mode res = ModeRGB /\
    getbands (im_mode res) = ["R"; "G"; "B"]%string /\
    ~ In "A"%string (getbands (im_mode res)).
Proof.
  intros Himg Hmode.
  pose proof (apply_watermark_run w img im text Himg Hmode) as Hrun.
  cbv zeta in Hrun. eexists _, _, _. split; [exact Hrun|].
  cbn [heap]. split; [apply lookup_insert_eq|].
  rewrite convert_size, convert_mode. cbn.
  repeat split. intros [H|[H|[H|[]]]]; discriminate.
Qed.

Lemma composite_same_size_no_alpha_witness :
  heap Ref.world0 !! 1%positive = Some Ref.loaded /\
  im_mode Ref.loaded = ModeRGBA /\
  exists (out : loc) (w' : World) (res : Image),
    @_apply_watermark Ref.platform 1%positive "made by afthab" Ref.world0 = (Ok out, w') /\
    heap w' !! out = Some res /\
    im_size res = im_size Ref.loaded /\
    im_mode res = ModeRGB /\
    getbands (im_mode res) = ["R"; "G"; "B"]%string /\
    ~ In "A"%string (getbands (im_mode res)).
Proof.
  split; [reflexivity|]. split; [reflexivity|].
  apply (@composite_same_size_no_alpha Ref.platform Ref.world0 1%positive Ref.loaded);
    reflexivity.
Defined.

(** Handed an [RGB] buffer directly, without the loader's conversion,
    [Image.alpha_composite] refuses it. *)
Lemma apply_watermark_rgb_raises `{P : Platform}
    (w : World) (img : loc) (im : Image) (text : string) :
  heap w !! img = Some im ->
  im_mode im = ModeRGB ->
  fst (_apply_watermark img text w) = Raise (Exception (ValueError "image has wrong mode")).
Proof.
  intros Himg Hmode. unfold _apply_watermark.
  rewrite (bind_ok _ _ _ _ _ (Image_size_ok _ _ _ Himg)).
  destruct (im_size im) as [width height] eqn:Hsize.
  rewrite (bind_ok _ _ _ _ _ (Image_copy_ok _ _ _ Himg)).
  unfold Image_new_obj. erewrite bind_ok by reflexivity.
  cbn [heap trace fst snd] in *.
  erewrite bind_ok by (apply ImageDraw_rectangle_ok; apply lookup_insert_eq).
  erewrite bind_ok by (apply ImageDraw_text_ok; apply lookup_insert_eq).
  erewrite bind_ok by (apply ImageDraw_text_ok; apply lookup_insert_eq).
  cbn [heap trace]. rewrite !insert_insert_eq.
  erewrite bind_raise; [reflexivity|].
  unfold Image_alpha_composite.
  erewrite bind_ok; cycle 1.
  { apply deref_ok. cbn [heap]. rewrite lookup_insert_ne.
    - apply lookup_insert_eq.
    - apply fresh_ne_live with im. apply lookup_insert_eq. }
  erewrite bind_ok by (apply deref_ok; apply lookup_insert_eq).
  unfold alpha_composite. rewrite Hmode. reflexivity.
Qed.

(** ** The geometry of the label *)

Section Geometry.
Context `{P : Platform}.

(** The font [_apply_watermark] ends up with, lines 87-90. *)
Lemma locals_font (width height : Z) (text : string) :
  L.font (watermark_locals width height text) =
    if font_installed "DejaVuSans.ttf"
    then FreeTypeFont "DejaVuSans.ttf" (Z.max 24 (width / 40))
    else DefaultFont.
Proof.
  unfold watermark_locals, truetype, load_default.
  destruct (textbbox _ _ _) as [[[bb0 bb1] bb2] bb3]. cbn [L.font].
  now destruct (font_installed _).
Qed.

(** Every local of [watermark_locals], with the bounding box read by
    projections. *)
Lemma locals_fields (width height : Z) (text : string) :
  let v := watermark_locals width height text in
  let bb := textbbox (0, 0) text (L.font v) in
  L.font_size v = Z.max 24 (width / 40) /\
  L.text_padding v = Z.max 12 (L.font_size v / 3) /\
  L.text_bbox v = bb /\
  L.text_w v = snd (fst bb) - fst (fst (fst bb)) /\
  L.text_h v = snd bb - snd (fst (fst bb)) /\
  L.x v = width - L.text_w v - L.text_padding v /\
  L.y v = height - L.text_h v - L.text_padding v /\
  L.bg_padding_x v = L.text_padding v / 2 /\
  L.bg_padding_y v = L.text_padding v / 3 /\
  L.rect_coords v =
    (L.x v - L.bg_padding_x v, L.y v - L.bg_padding_y v,
     L.x v + L.text_w v + L.bg_padding_x v, L.y v + L.text_h v + L.bg_padding_y v) /\
  L.shadow_offset v = Z.max 1 (L.font_size v / 20).
Proof.
  cbv zeta. rewrite locals_font. unfold watermark_locals, truetype, load_default.
  destruct (font_installed _);
    destruct (textbbox _ _ _) as [[[bb0 bb1] bb2] bb3]; cbn; repeat split.
Qed.

End Geometry.

(** C2. The font size [_apply_watermark] computes for an image of a given
    width is [max(24, width // 40)]: 24 at width 960 and 100 at width 4000;
    the font is DejaVuSans at that size, or the built-in font when
    DejaVuSans cannot be opened. *)
Theorem font_size_formula `{P : Platform} (width height : Z) (text : string) :
  L.font_size (watermark_locals width height text) = Z.max 24 (width / 40) /\
  L.font_size (watermark_locals 960 height text) = 24 /\
  L.font_size (watermark_locals 4000 height text) = 100 /\
  L.font (watermark_locals width height text) =
    (if font_installed "DejaVuSans.ttf"
     then FreeTypeFont "DejaVuSans.ttf" (L.font_size (watermark_locals width height text))
     else DefaultFont).
Proof.
  pose proof (locals_fields width height text) as Hw.
  pose proof (locals_fields 960 height text) as H960.
  pose proof (locals_fields 4000 height text) as H4000.
  cbv zeta in *.
  destruct Hw as [Hw _], H960 as [H960 _], H4000 as [H4000 _].
  rewrite Hw, H960, H4000. repeat split. apply locals_font.
Qed.

(** C3. The text padding is [max(12, font_size // 3)]; a font size of 100
    gives a padding of 33. *)
Theorem text_padding_formula `{P : Platform} (width height : Z) (text : string) :
  L.text_padding (watermark_locals width height text) =
    Z.max 12 (L.font_size (watermark_locals width height text) / 3) /\
  (L.font_size (watermark_locals width height text) = 100 ->
   L.text_padding (watermark_locals width height text) = 33).
Proof.
  pose proof (locals_fields width height text) as H. cbv zeta in H.
  destruct H as (_ & Hpad & _). split; [exact Hpad|].
  intros Hfs. rewrite Hpad, Hfs. reflexivity.
Qed.

Lemma text_padding_formula_witness :
  L.font_size (@watermark_locals Ref.platform 4000 2160 "made by afthab") = 100 /\
  L.text_padding (@watermark_locals Ref.platform 4000 2160 "made by afthab") = 33.
Proof.
  split; [reflexivity|].
  apply (proj2 (@text_padding_formula Ref.platform 4000 2160 "made by afthab")).
  reflexivity.
Defined.

(** ** What a run of the compositor leaves behind *)

(** An address that is fresh for a heap is fresh for every heap it
    extends. *)
Lemma fresh_ext_not_live (h h' : gmap positive Image) :
  (forall l o, h !! l = Some o -> h' !! l = Some o) ->
  h !! fresh (dom h') = None.
Proof.
  intros Hext. destruct (h !! fresh (dom h')) as [o|] eqn:E; [|reflexivity].
  apply Hext in E. rewrite fresh_not_live in E. discriminate.
Qed.

Lemma apply_watermark_spec `{P : Platform}
    (w : World) (img : loc) (im : Image) (text : string) :
  heap w !! img = Some im ->
  im_mode im = ModeRGBA ->
  let v := watermark_locals (fst (im_size im)) (snd (im_size im)) text in
  let overlay := overlay_of (im_size im) text v in
  exists (out layer : loc) (w' : World),
    _apply_watermark img text w = (Ok out, w') /\
    trace w' = trace w ++
      [EvRectangle layer (L.rect_coords v) (mkPixel 0 0 0 90);
       EvText layer (L.x v + L.shadow_offset v, L.y v + L.shadow_offset v)
         text (L.font v) (mkPixel 0 0 0 200);
       EvText layer (L.x v, L.y v) text (L.font v) (mkPixel 255 255 255 220)] /\
    heap w !! layer = None /\
    heap w' !! layer = Some overlay /\
    heap w !! out = None /\
    heap w' !! out = Some (convert (composed_of im overlay) ModeRGB) /\
    (forall l o, heap w !! l = Some o -> heap w' !! l = Some o).
Proof.
  intros Himg Hmode v overlay.
  pose proof (apply_watermark_run w img im text Himg Hmode) as Hrun.
  cbv zeta in Hrun. fold v overlay in Hrun.
  set (h1 := <[fresh (dom (heap w)) := im]> (heap w)) in *.
  set (h2 := <[fresh (dom h1) := overlay]> h1) in *.
  set (h3 := <[fresh (dom h2) := composed_of im overlay]> h2) in *.
  assert (F1 : forall l o, heap w !! l = Some o -> h1 !! l = Some o)
    by (intros l o H; now apply alloc_frame).
  assert (F2 : forall l o, heap w !! l = Some o -> h2 !! l = Some o)
    by (intros l o H; apply alloc_frame; now apply F1).
  assert (F3 : forall l o, heap w !! l = Some o -> h3 !! l = Some o)
    by (intros l o H; apply alloc_frame; now apply F2).
  exists (fresh (dom h3)), (fresh (dom h1)). eexists. split; [exact Hrun|].
  cbn [heap trace]. split; [reflexivity|].
  split; [now apply fresh_ext_not_live|].
  split.
  { apply alloc_frame. apply alloc_frame. apply lookup_insert_eq. }
  split; [now apply fresh_ext_not_live|].
  split; [apply lookup_insert_eq|].
  intros l o H. apply alloc_frame. now apply F3.
Qed.

(** C4. With [(l, t, r, b)] the measured bounding box of the text, the
    text is [r - l] wide and [b - t] high and is anchored at
    [x = width - text_w - padding], [y = height - text_h - padding]: the
    padding separates its box from the right and bottom edges. *)
Theorem text_anchor_bottom_right `{P : Platform}
    (width height : Z) (text : string) (l t r b : Z) :
  let v := watermark_locals width height text in
  textbbox (0, 0) text (L.font v) = (l, t, r, b) ->
  L.text_bbox v = (l, t, r, b) /\
  L.text_w v = r - l /\
  L.text_h v = b - t /\
  L.x v = width - L.text_w v - L.text_padding v /\
  L.y v = height - L.text_h v - L.text_padding v /\
  L.x v + L.text_w v + L.text_padding v = width /\
  L.y v + L.text_h v + L.text_padding v = height.
Proof.
  intros v Hbb.
  pose proof (locals_fields width height text) as H. cbv zeta in H. fold v in H.
  rewrite Hbb in H. cbn [fst snd] in H.
  destruct H as (_ & _ & Hb & Hw & Hh & Hx & Hy & _).
  repeat split; try assumption; lia.
Qed.

Lemma text_anchor_bottom_right_witness :
  @textbbox Ref.platform (0, 0) "made by afthab"
    (L.font (@watermark_locals Ref.platform 3840 2160 "made by afthab")) = (0, 0, 84, 11) /\
  L.x (@watermark_locals Ref.platform 3840 2160 "made by afthab") = 3840 - 84 - 32 /\
  L.y (@watermark_locals Ref.platform 3840 2160 "made by afthab") = 2160 - 11 - 32.
Proof.
  split; [reflexivity|].
  pose proof (@text_anchor_bottom_right Ref.platform 3840 2160 "made by afthab"
                0 0 84 11 eq_refl) as H.
  destruct H as (_ & Hw & Hh & Hx & Hy & _).
  rewrite Hx, Hy, Hw, Hh. split; reflexivity.
Defined.

(** ** Pixels of the overlay and of the result *)

Lemma in_canvas_true (size : Z * Z) (px py : Z) :
  0 <= px < fst size -> 0 <= py < snd size -> in_canvas size px py = true.
Proof.
  intros Hx Hy. unfold in_canvas.
  rewrite !andb_true_iff, !Z.leb_le, !Z.ltb_lt. lia.
Qed.

(** On the canvas the overlay holds, pixel by pixel, the plate with the
    ink of the shadow blended in through the glyph mask placed at the
    shadow's origin, and the ink of the label blended over that through
    the mask placed at the text origin. *)
Lemma overlay_px_canvas `{P : Platform} (size : Z * Z) (text : string) (v : L.t)
    (px py : Z) :
  in_canvas size px py = true ->
  im_px (overlay_of size text v) px py =
    blend
      (blend
         (im_px (draw_rectangle (Image_new ModeRGBA size (mkPixel 0 0 0 0))
                   (L.rect_coords v) (mkPixel 0 0 0 90)) px py)
         (mkPixel 0 0 0 200)
         (getmask (L.font v) text (px - (L.x v + L.shadow_offset v))
            (py - (L.y v + L.shadow_offset v))))
      (mkPixel 255 255 255 220)
      (getmask (L.font v) text (px - L.x v) (py - L.y v)).
Proof.
  intros Hc. unfold overlay_of, draw_text. cbn [im_px im_size draw_rectangle Image_new fst snd].
  now rewrite Hc.
Qed.

Lemma overlay_px_off_canvas `{P : Platform} (size : Z * Z) (text : string) (v : L.t)
    (px py : Z) :
  in_canvas size px py = false ->
  im_px (overlay_of size text v) px py = mkPixel 0 0 0 0.
Proof.
  intros Hc. unfold overlay_of, draw_text. cbn [im_px im_size draw_rectangle Image_new fst snd].
  rewrite Hc. now destruct (L.rect_coords v) as [[[x0 y0] x1] y1].
Qed.

(** A pixel of the result: the overlay over the input, the alpha band
    dropped. *)
Lemma result_px `{P : Platform} (im overlay : Image) (px py : Z) :
  im_px (convert (composed_of im overlay) ModeRGB) px py =
    (let q := over (im_px im px py) (im_px overlay px py) in
     mkPixel (pr q) (pg q) (pb q) 255).
Proof. reflexivity. Qed.

(** C5. The run makes one rectangle call, before any text is drawn: on
    the new overlay, from [(x - padX, y - padY)] to
    [(x + text_w + padX, y + text_h + padY)] with [padX = padding // 2] and
    [padY = padding // 3], filled with black at alpha 90.  The call fills:
    in the result, a canvas pixel of that closed box is the input under
    the ink (0, 0, 0, 90), itself under the glyphs of shadow and label,
    and a canvas pixel outside the box has no such ink under the
    glyphs. *)
Theorem background_plate `{P : Platform}
    (w : World) (img : loc) (im : Image) (text : string) :
  heap w !! img = Some im ->
  im_mode im = ModeRGBA ->
  let v := watermark_locals (fst (im_size im)) (snd (im_size im)) text in
  let padX := L.text_padding v / 2 in
  let padY := L.text_padding v / 3 in
  let box := (L.x v - padX, L.y v - padY,
              L.x v + L.text_w v + padX, L.y v + L.text_h v + padY) in
  exists (out layer : loc) (w' : World) (evs : list Event) (res : Image),
    _apply_watermark img text w = (Ok out, w') /\
    trace w' = trace w ++ EvRectangle layer box (mkPixel 0 0 0 90) :: evs /\
    rectangles evs = [] /\
    heap w !! layer = None /\
    heap w' !! out = Some res /\
    (forall px py,
        0 <= px < fst (im_size im) -> 0 <= py < snd (im_size im) ->
        im_px res px py =
          (let plate :=
             if (L.x v - padX <=? px) && (px <=? L.x v + L.text_w v + padX)
                && (L.y v - padY <=? py) && (py <=? L.y v + L.text_h v + padY)
             then mkPixel 0 0 0 90 else mkPixel 0 0 0 0 in
           let glyphs :=
             blend
               (blend plate (mkPixel 0 0 0 200)
                  (getmask (L.font v) text (px - (L.x v + L.shadow_offset v))
                     (py - (L.y v + L.shadow_offset v))))
               (mkPixel 255 255 255 220)
               (getmask (L.font v) text (px - L.x v) (py - L.y v)) in
           let q := over (im_px im px py) glyphs in
           mkPixel (pr q) (pg q) (pb q) 255)).
Proof.
  intros Himg Hmode v padX padY box.
  destruct (apply_watermark_spec w img im text Himg Hmode)
    as (out & layer & w' & Hrun & Htr & Hnew & _ & _ & Hres & _).
  fold v in Htr, Hres.
  pose proof (locals_fields (fst (im_size im)) (snd (im_size im)) text) as H.
  cbv zeta in H. fold v in H.
  destruct H as (_ & _ & _ & _ & _ & _ & _ & Hpx & Hpy & Hrect & _).
  rewrite Hpx, Hpy in Hrect. fold padX padY in Hrect.
  rewrite Hrect in Htr.
  exists out, layer, w'. eexists _, _. split; [exact Hrun|].
  split; [exact Htr|]. split; [reflexivity|]. split; [exact Hnew|].
  split; [exact Hres|].
  intros px py Bx By. rewrite result_px.
  rewrite (overlay_px_canvas _ _ _ _ _ (in_canvas_true _ _ _ Bx By)).
  rewrite Hrect, plate_pixels, (in_canvas_true _ _ _ Bx By). reflexivity.
Qed.

Lemma background_plate_witness :
  heap Ref.world1 !! 1%positive = Some Ref.canvas /\
  im_mode Ref.canvas = ModeRGBA /\
  exists (out layer : loc) (w' : World) (evs : list Event) (res : Image),
    @_apply_watermark Ref.platform 1%positive "made by afthab" Ref.world1 = (Ok out, w') /\
    trace w' = trace Ref.world1 ++
      EvRectangle layer (104 - 6, 77 - 4, 104 + 84 + 6, 77 + 11 + 4) (mkPixel 0 0 0 90) :: evs /\
    rectangles evs = [] /\
    heap Ref.world1 !! layer = None /\
    heap w' !! out = Some res /\
    im_px res 98 73 = mkPixel 19 38 58 255 /\
    im_px res 194 92 = mkPixel 19 38 58 255 /\
    im_px res 97 73 = mkPixel 30 60 90 255 /\
    im_px res 195 92 = mkPixel 30 60 90 255.
Proof.
  split; [reflexivity|]. split; [reflexivity|].
  destruct (@background_plate Ref.platform Ref.world1 1%positive Ref.canvas
              "made by afthab" eq_refl eq_refl)
    as (out & layer & w' & evs & res & Hrun & Htr & Hrect & Hnew & Hres & Hpx).
  exists out, layer, w', evs, res.
  split; [exact Hrun|]. split; [exact Htr|]. split; [exact Hrect|].
  split; [exact Hnew|]. split; [exact Hres|].
  repeat split; rewrite Hpx by (cbn; lia); reflexivity.
Defined.

(** C6. The run draws the text twice, on an overlay that is a new
    transparent [RGBA] buffer of the size of the image: first at
    [(x + offset, y + offset)] in black at alpha 200, the shadow, then at
    [(x, y)] in white at alpha 220, the label, with
    [offset = max(1, font_size // 20)].  The calls draw: every canvas
    pixel of the overlay is the plate with the black ink blended in
    through the glyph mask at the shadow's origin and the white ink
    blended over that through the mask at the text origin; off the canvas
    the overlay stays transparent; the result is the overlay over the
    input. *)
Theorem shadow_then_label `{P : Platform}
    (w : World) (img : loc) (im : Image) (text : string) :
  heap w !! img = Some im ->
  im_mode im = ModeRGBA ->
  let v := watermark_locals (fst (im_size im)) (snd (im_size im)) text in
  let offset := Z.max 1 (L.font_size v / 20) in
  let plate :=
    draw_rectangle (Image_new ModeRGBA (im_size im) (mkPixel 0 0 0 0))
      (L.rect_coords v) (mkPixel 0 0 0 90) in
  exists (out layer : loc) (w' : World) (evs : list Event) (overlay res : Image),
    _apply_watermark img text w = (Ok out, w') /\
    trace w' = trace w ++ evs /\
    texts evs =
      [(layer, (L.x v + offset, L.y v + offset), text, L.font v, mkPixel 0 0 0 200);
       (layer, (L.x v, L.y v), text, L.font v, mkPixel 255 255 255 220)] /\
    heap w !! layer = None /\
    heap w' !! layer =
      Some (draw_text
              (draw_text plate
                 (L.x v + offset, L.y v + offset) text (L.font v) (mkPixel 0 0 0 200))
              (L.x v, L.y v) text (L.font v) (mkPixel 255 255 255 220)) /\
    heap w' !! layer = Some overlay /\
    (forall px py,
        0 <= px < fst (im_size im) -> 0 <= py < snd (im_size im) ->
        im_px overlay px py =
          blend
            (blend (im_px plate px py) (mkPixel 0 0 0 200)
               (getmask (L.font v) text (px - (L.x v + offset)) (py - (L.y v + offset))))
            (mkPixel 255 255 255 220)
            (getmask (L.font v) text (px - L.x v) (py - L.y v))) /\
    (forall px py,
        ~ (0 <= px < fst (im_size im) /\ 0 <= py < snd (im_size im)) ->
        im_px overlay px py = mkPixel 0 0 0 0) /\
    heap w' !! out = Some res /\
    (forall px py,
        im_px res px py =
          (let q := over (im_px im px py) (im_px overlay px py) in
           mkPixel (pr q) (pg q) (pb q) 255)).
Proof.
  intros Himg Hmode v offset plate.
  destruct (apply_watermark_spec w img im text Himg Hmode)
    as (out & layer & w' & Hrun & Htr & Hnew & Hlayer & _ & Hres & _).
  fold v in Htr, Hlayer, Hres.
  pose proof (locals_fields (fst (im_size im)) (snd (im_size im)) text) as H.
  cbv zeta in H. fold v in H.
  destruct H as (_ & _ & _ & _ & _ & _ & _ & _ & _ & _ & Hoff).
  fold offset in Hoff.
  exists out, layer, w'. eexists _, (overlay_of (im_size im) text v), _.
  split; [exact Hrun|]. split; [exact Htr|].
  split; [rewrite Hoff; reflexivity|]. split; [exact Hnew|].
  split; [rewrite Hlayer; unfold overlay_of, plate; rewrite Hoff; reflexivity|].
  split; [exact Hlayer|]. split.
  { intros px py Bx By.
    rewrite (overlay_px_canvas _ _ _ _ _ (in_canvas_true _ _ _ Bx By)).
    now rewrite Hoff. }
  split.
  { intros px py Hout. apply overlay_px_off_canvas.
    unfold in_canvas. rewrite !andb_false_iff, Z.leb_gt, !Z.ltb_ge, Z.leb_gt.
    destruct (Z.leb_spec 0 px); [|tauto].
    destruct (Z.ltb_spec px (fst (im_size im))); [|tauto].
    destruct (Z.leb_spec 0 py); [|tauto].
    destruct (Z.ltb_spec py (snd (im_size im))); [|tauto].
    exfalso. apply Hout. lia. }
  split; [exact Hres|]. intros px py. apply result_px.
Qed.

Lemma shadow_then_label_witness :
  heap Ref.world1 !! 1%positive = Some Ref.canvas /\
  im_mode Ref.canvas = ModeRGBA /\
  exists (out layer : loc) (w' : World) (evs : list Event) (overlay res : Image),
    @_apply_watermark Ref.platform 1%positive "made by afthab" Ref.world1 = (Ok out, w') /\
    trace w' = trace Ref.world1 ++ evs /\
    texts evs =
      [(layer, (104 + 1, 77 + 1), "made by afthab"%string, DefaultFont, mkPixel 0 0 0 200);
       (layer, (104, 77), "made by afthab"%string, DefaultFont, mkPixel 255 255 255 220)] /\
    heap w' !! layer = Some overlay /\
    heap w' !! out = Some res /\
    im_px overlay 104 77 = mkPixel 255 255 255 220 /\
    im_px overlay 188 88 = mkPixel 0 0 0 200 /\
    im_px overlay 189 88 = mkPixel 0 0 0 90 /\
    im_px res 104 77 = mkPixel 224 228 232 255 /\
    im_px res 188 88 = mkPixel 6 12 19 255.
Proof.
  split; [reflexivity|]. split; [reflexivity|].
  destruct (@shadow_then_label Ref.platform Ref.world1 1%positive Ref.canvas
              "made by afthab" eq_refl eq_refl)
    as (out & layer & w' & evs & overlay & res & Hrun & Htr & Htexts & _ & _ &
        Hlayer & Hov & _ & Hres & Hpx).
  exists out, layer, w', evs, overlay, res.
  split; [exact Hrun|]. split; [exact Htr|]. split; [exact Htexts|].
  split; [exact Hlayer|]. split; [exact Hres|].
  assert (H1 : im_px overlay 104 77 = mkPixel 255 255 255 220)
    by (rewrite Hov by (cbn; lia); reflexivity).
  assert (H2 : im_px overlay 188 88 = mkPixel 0 0 0 200)
    by (rewrite Hov by (cbn; lia); reflexivity).
  assert (H3 : im_px overlay 189 88 = mkPixel 0 0 0 90)
    by (rewrite Hov by (cbn; lia); reflexivity).
  repeat split; try assumption; rewrite Hpx; [rewrite H1|rewrite H2]; reflexivity.
Defined.

(** C7. [_apply_watermark] returns a buffer that did not exist before the
    call, and every buffer that did, the input among them, holds after
    the call what it held before: all drawing goes to buffers the call
    itself creates. *)
Theorem composite_leaves_input_unchanged `{P : Platform}
    (w : World) (img : loc) (im : Image) (text : string) :
  heap w !! img = Some im ->
  im_mode im = ModeRGBA ->
  exists (out : loc) (w' : World) (evs : list Event),
    _apply_watermark img text w = (Ok out, w') /\
    heap w' !! img = Some im /\
    heap w !! out = None /\
    out <> img /\
    is_Some (heap w' !! out) /\
    (forall l o, heap w !! l = Some o -> heap w' !! l = Some o) /\
    trace w' = trace w ++ evs /\
    Forall (fun ev => forall l, draws_on ev = Some l -> heap w !! l = None) evs.
Proof.
  intros Himg Hmode.
  destruct (apply_watermark_spec w img im text Himg Hmode)
    as (out & layer & w' & Hrun & Htr & Hnew & _ & Hout & Hres & Hframe).
  exists out, w'. eexists. split; [exact Hrun|].
  split; [now apply Hframe|]. split; [exact Hout|].
  split; [intros E; subst out; congruence|].
  split; [eexists; exact Hres|]. split; [exact Hframe|].
  split; [exact Htr|].
  repeat constructor; intros l E; cbn in E; congruence.
Qed.

Lemma composite_leaves_input_unchanged_witness :
  heap Ref.world0 !! 1%positive = Some Ref.loaded /\
  im_mode Ref.loaded = ModeRGBA /\
  exists (out : loc) (w' : World),
    @_apply_watermark Ref.platform 1%positive "made by afthab" Ref.world0 = (Ok out, w') /\
    heap w' !! 1%positive = Some Ref.loaded /\
    heap Ref.world0 !! out = None.
Proof.
  split; [reflexivity|]. split; [reflexivity|].
  destruct (@composite_leaves_input_unchanged Ref.platform Ref.world0 1%positive Ref.loaded
              "made by afthab" eq_refl eq_refl)
    as (out & w' & evs & Hrun & Hin & Hout & _).
  exists out, w'. split; [exact Hrun|]. split; [exact Hin|exact Hout].
Defined.

(** ** Coordinates and the canvas *)

(** The offset of the shadow is smaller than the padding. *)
Lemma shadow_offset_lt_padding (fs : Z) : Z.max 1 (fs / 20) < Z.max 12 (fs / 3).
Proof.
  pose proof (Z.div_mod fs 20) as H20. pose proof (Z.mod_pos_bound fs 20) as B20.
  pose proof (Z.div_mod fs 3) as H3. pose proof (Z.mod_pos_bound fs 3) as B3.
  lia.
Qed.

(** C9, as the code has it. The coordinates are not clamped: on a picture
    of 4 by 3 pixels the default label, 84 pixels wide, is anchored at
    [(-92, -20)], and none of the four coordinates the drawing calls are
    given lies in the canvas. *)
Lemma coordinates_leave_canvas :
  exists (out : loc) (w' : World) (evs : list Event),
    @_apply_watermark Ref.platform 1%positive "made by afthab" Ref.world0 = (Ok out, w') /\
    trace w' = trace Ref.world0 ++ evs /\
    im_size Ref.loaded = (4, 3) /\
    flat_map referenced evs = [(-98, -24); (-2, -5); (-91, -19); (-92, -20)] /\
    Forall (fun p => ~ inside (im_size Ref.loaded) p) (flat_map referenced evs).
Proof.
  set (run := @_apply_watermark Ref.platform 1%positive "made by afthab" Ref.world0).
  assert (Hout : fst run = Ok 5%positive) by (vm_compute; reflexivity).
  assert (Htr : trace (snd run) =
            [EvRectangle 3%positive (-98, -24, -2, -5) (mkPixel 0 0 0 90);
             EvText 3%positive (-91, -19) "made by afthab" DefaultFont (mkPixel 0 0 0 200);
             EvText 3%positive (-92, -20) "made by afthab" DefaultFont
               (mkPixel 255 255 255 220)])
    by (vm_compute; reflexivity).
  exists 5%positive, (snd run). eexists.
  split; [apply injective_projections; [exact Hout|reflexivity]|].
  split; [rewrite Htr; reflexivity|].
  split; [reflexivity|]. split; [reflexivity|].
  repeat constructor; unfold inside; cbn; lia.
Qed.

(** C9, amended. The drawing calls of a run are given four coordinates:
    the two corners of the plate, the origin of the shadow and the origin
    of the label.  For a text box that is not negative in width or height,
    all four lie in the canvas exactly when the label with its plate
    fits: [text_w + padding + padX <= width] and
    [text_h + padding + padY <= height]. *)
Theorem coordinates_inside_iff_label_fits `{P : Platform}
    (w : World) (img : loc) (im : Image) (text : string) :
  heap w !! img = Some im ->
  im_mode im = ModeRGBA ->
  let v := watermark_locals (fst (im_size im)) (snd (im_size im)) text in
  0 <= L.text_w v ->
  0 <= L.text_h v ->
  exists (out : loc) (w' : World) (evs : list Event),
    _apply_watermark img text w = (Ok out, w') /\
    trace w' = trace w ++ evs /\
    flat_map referenced evs =
      [(L.x v - L.bg_padding_x v, L.y v - L.bg_padding_y v);
       (L.x v + L.text_w v + L.bg_padding_x v, L.y v + L.text_h v + L.bg_padding_y v);
       (L.x v + L.shadow_offset v, L.y v + L.shadow_offset v);
       (L.x v, L.y v)] /\
    (Forall (inside (im_size im)) (flat_map referenced evs) <->
     L.text_w v + L.text_padding v + L.bg_padding_x v <= fst (im_size im) /\
     L.text_h v + L.text_padding v + L.bg_padding_y v <= snd (im_size im)).
Proof.
  intros Himg Hmode v Hw Hh.
  destruct (apply_watermark_spec w img im text Himg Hmode)
    as (out & layer & w' & Hrun & Htr & _).
  fold v in Htr.
  pose proof (locals_fields (fst (im_size im)) (snd (im_size im)) text) as H.
  cbv zeta in H. fold v in H.
  destruct H as (Hfs & Hpad & _ & _ & _ & Hx & Hy & Hpx & Hpy & Hrect & Hoff).
  pose proof (shadow_offset_lt_padding (L.font_size v)) as Hlt.
  rewrite <- Hoff, <- Hpad in Hlt.
  assert (Hp12 : 12 <= L.text_padding v) by lia.
  assert (Hbx : 0 <= L.bg_padding_x v < L.text_padding v).
  { rewrite Hpx. pose proof (Z.div_mod (L.text_padding v) 2).
    pose proof (Z.mod_pos_bound (L.text_padding v) 2). lia. }
  assert (Hby : 0 <= L.bg_padding_y v < L.text_padding v).
  { rewrite Hpy. pose proof (Z.div_mod (L.text_padding v) 3).
    pose proof (Z.mod_pos_bound (L.text_padding v) 3). lia. }
  assert (Ho : 1 <= L.shadow_offset v) by lia.
  rewrite Hrect in Htr.
  exists out, w'. eexists. split; [exact Hrun|]. split; [exact Htr|].
  split; [reflexivity|].
  cbn [flat_map referenced app]. unfold inside. cbn [fst snd].
  split.
  - intros HF. inversion HF as [|p ps [Hx0 Hy0] _]; subst. cbn [fst snd] in *. lia.
  - intros [Fx Fy]. repeat constructor; cbn [fst snd]; lia.
Qed.

Lemma coordinates_inside_iff_label_fits_witness :
  heap Ref.world1 !! 1%positive = Some Ref.canvas /\
  im_mode Ref.canvas = ModeRGBA /\
  0 <= L.text_w (@watermark_locals Ref.platform 200 100 "made by afthab") /\
  0 <= L.text_h (@watermark_locals Ref.platform 200 100 "made by afthab") /\
  exists (out : loc) (w' : World) (evs : list Event),
    @_apply_watermark Ref.platform 1%positive "made by afthab" Ref.world1 = (Ok out, w') /\
    trace w' = trace Ref.world1 ++ evs /\
    flat_map referenced evs = [(98, 73); (194, 92); (105, 78); (104, 77)] /\
    Forall (inside (200, 100)) (flat_map referenced evs).
Proof.
  split; [reflexivity|]. split; [reflexivity|].
  split; [vm_compute; discriminate|]. split; [vm_compute; discriminate|].
  destruct (@coordinates_inside_iff_label_fits Ref.platform Ref.world1 1%positive Ref.canvas
              "made by afthab" eq_refl eq_refl)
    as (out & w' & evs & Hrun & Htr & Hrefd & Hiff).
  - vm_compute; discriminate.
  - vm_compute; discriminate.
  - exists out, w', evs. split; [exact Hrun|]. split; [exact Htr|].
    split; [exact Hrefd|]. apply Hiff. split; vm_compute; discriminate.
Defined.

(** ** The loader and the endpoint *)

(** Every path through [_load_image_from_url]. *)
Lemma load_image_cases `{P : Platform} (url : string) (w : World) :
  _load_image_from_url url w =
    match urlparse url with
    | inl _ => (Raise unable, w)
    | inr parsed =>
        if negb (String.eqb (scheme parsed) "http" || String.eqb (scheme parsed) "https")
        then (Raise unable, w)
        else
          let w1 := mkWorld (heap w) (trace w ++ [EvGet url 10]) in
          match requests_get url 10 with
          | inl _ => (Raise unable, w1)
          | inr resp =>
              if negb (status_code resp =? 200) then (Raise failed_fetch, w1)
              else
                match Image_open (content resp) with
                | inl _ => (Raise unable, w1)
                | inr opened =>
                    let o := fresh (dom (heap w)) in
                    let h1 := <[o := opened]> (heap w) in
                    (Ok (fresh (dom h1)),
                     mkWorld (<[fresh (dom h1) := convert opened ModeRGBA]> h1)
                       (trace w ++ [EvGet url 10]))
                end
          end
    end.
Proof.
  unfold _load_image_from_url, try_except, bind at 1.
  destruct (urlparse url) as [err|parsed]; [reflexivity|]. cbn [call ret].
  destruct (negb _); [reflexivity|].
  unfold requests_get_call, bind at 1 2, emit.
  destruct (requests_get url 10) as [err|resp]; [reflexivity|]. cbn [call ret].
  destruct (negb _); [reflexivity|].
  unfold bind at 1.
  destruct (Image_open (content resp)) as [err|opened]; [reflexivity|]. cbn [call ret].
  unfold bind at 1. unfold alloc at 1. unfold bind.
  rewrite (Image_convert_ok _ _ opened) by apply lookup_insert_eq.
  reflexivity.
Qed.

Lemma watermark_image_load_raises `{P : Platform}
    (url : string) (text : option string) (w w' : World) (e : Exn) :
  _load_image_from_url url w = (Raise e, w') ->
  watermark_image url text w = (Raise e, w').
Proof. intros H. unfold watermark_image. now apply bind_raise. Qed.

(** C8. A url whose parsed scheme is neither [http] nor [https] makes the
    watermark operation fail with HTTP 400 in the world it started in: no
    request was sent.  A fetch that raises, a response whose status is
    not 200 and a body that does not decode fail with HTTP 400 as well,
    after the one request, and whatever the loader raises is an HTTP 400
    with one of two fixed detail strings. *)
Theorem load_failures_are_http_400 `{P : Platform}
    (url : string) (text : option string) (w : World) :
  (forall parsed,
      urlparse url = inr parsed ->
      scheme parsed <> "http"%string -> scheme parsed <> "https"%string ->
      watermark_image url text w =
        (Raise (HTTPException 400 "Unable to load image from URL"), w)) /\
  (forall parsed err,
      urlparse url = inr parsed ->
      scheme parsed = "http"%string \/ scheme parsed = "https"%string ->
      requests_get url 10 = inl err ->
      watermark_image url text w =
        (Raise (HTTPException 400 "Unable to load image from URL"),
         mkWorld (heap w) (trace w ++ [EvGet url 10]))) /\
  (forall parsed resp,
      urlparse url = inr parsed ->
      scheme parsed = "http"%string \/ scheme parsed = "https"%string ->
      requests_get url 10 = inr resp ->
      status_code resp <> 200 ->
      watermark_image url text w =
        (Raise (HTTPException 400 "Failed to fetch source image"),
         mkWorld (heap w) (trace w ++ [EvGet url 10]))) /\
  (forall parsed resp err,
      urlparse url = inr parsed ->
      scheme parsed = "http"%string \/ scheme parsed = "https"%string ->
      requests_get url 10 = inr resp ->
      status_code resp = 200 ->
      Image_open (content resp) = inl err ->
      watermark_image url text w =
        (Raise (HTTPException 400 "Unable to load image from URL"),
         mkWorld (heap w) (trace w ++ [EvGet url 10]))) /\
  (forall e w',
      _load_image_from_url url w = (Raise e, w') ->
      e = HTTPException 400 "Unable to load image from URL" \/
      e = HTTPException 400 "Failed to fetch source image").
Proof.
  assert (Hgood : forall parsed,
             scheme parsed = "http"%string \/ scheme parsed = "https"%string ->
             negb (String.eqb (scheme parsed) "http" || String.eqb (scheme parsed) "https")
             = false).
  { intros parsed [E|E]; rewrite E; reflexivity. }
  repeat split.
  - intros parsed Hp Hn1 Hn2. apply watermark_image_load_raises.
    rewrite load_image_cases, Hp.
    apply String.eqb_neq in Hn1, Hn2. rewrite Hn1, Hn2. reflexivity.
  - intros parsed err Hp Hs Hget. apply watermark_image_load_raises.
    rewrite load_image_cases, Hp, (Hgood _ Hs). cbv zeta. rewrite Hget. reflexivity.
  - intros parsed resp Hp Hs Hget Hst. apply watermark_image_load_raises.
    rewrite load_image_cases, Hp, (Hgood _ Hs). cbv zeta. rewrite Hget.
    apply Z.eqb_neq in Hst. rewrite Hst. reflexivity.
  - intros parsed resp err Hp Hs Hget Hst Hopen. apply watermark_image_load_raises.
    rewrite load_image_cases, Hp, (Hgood _ Hs). cbv zeta. rewrite Hget, Hst, Hopen.
    reflexivity.
  - intros e w'. rewrite load_image_cases.
    destruct (urlparse url) as [err|parsed]; [intros [= <- _]; now left|].
    destruct (negb _); [intros [= <- _]; now left|]. cbv zeta.
    destruct (requests_get url 10) as [err|resp]; [intros [= <- _]; now left|].
    destruct (negb _); [intros [= <- _]; now right|].
    destruct (Image_open _) as [err|opened]; [intros [= <- _]; now left|].
    discriminate.
Qed.

Lemma load_failures_are_http_400_witness :
  Ref.urlparse "ftp://example.com/a.raw" = inr (mkParseResult "ftp" "//example.com/a.raw") /\
  @watermark_image Ref.platform "ftp://example.com/a.raw" None (mkWorld ∅ []) =
    (Raise (HTTPException 400 "Unable to load image from URL"), mkWorld ∅ []) /\
  @watermark_image Ref.platform "https://example.com/missing.raw" None (mkWorld ∅ []) =
    (Raise (HTTPException 400 "Failed to fetch source image"),
     mkWorld ∅ [EvGet "https://example.com/missing.raw" 10]).
Proof.
  split; [reflexivity|]. split.
  - apply (proj1 (@load_failures_are_http_400 Ref.platform "ftp://example.com/a.raw"
                    None (mkWorld ∅ []))
             (mkParseResult "ftp" "//example.com/a.raw"));
      [reflexivity | discriminate | discriminate].
  - apply (proj1 (proj2 (proj2 (@load_failures_are_http_400 Ref.platform
                    "https://example.com/missing.raw" None (mkWorld ∅ []))))
             (mkParseResult "https" "//example.com/missing.raw") (mkResponse 404 []));
      [reflexivity | right; reflexivity | reflexivity | discriminate].
Defined.

(** C10. A [text] parameter that is falsy, absent or the empty string, is
    replaced by ["made by afthab"] before compositing: the endpoint then
    behaves as if that text had been supplied. *)
Theorem falsy_text_gets_default `{P : Platform} (url : string) (text : option string) :
  truthy text = false ->
  (text = None \/ text = Some ""%string) /\
  watermark_image url text = watermark_image url (Some "made by afthab"%string) /\
  watermark_image url text =
    (img <- _load_image_from_url url ;;
     out <- _apply_watermark img "made by afthab" ;;
     buf <- Image_save_jpeg out 90 true ;;
     ret (mkStreamingResponse buf "image/jpeg")).
Proof.
  intros H. destruct text as [[|c s]|]; try discriminate H.
  - split; [now right|]. split; reflexivity.
  - split; [now left|]. split; reflexivity.
Qed.

Lemma falsy_text_gets_default_witness :
  truthy (Some ""%string) = false /\
  truthy None = false /\
  @watermark_image Ref.platform "https://example.com/a.raw" (Some ""%string) =
    @watermark_image Ref.platform "https://example.com/a.raw" (Some "made by afthab"%string) /\
  @watermark_image Ref.platform "https://example.com/a.raw" None =
    @watermark_image Ref.platform "https://example.com/a.raw" (Some "made by afthab"%string).
Proof.
  split; [reflexivity|]. split; [reflexivity|]. split.
  - apply (@falsy_text_gets_default Ref.platform "https://example.com/a.raw" (Some ""%string)).
    reflexivity.
  - apply (@falsy_text_gets_default Ref.platform "https://example.com/a.raw" None).
    reflexivity.
Defined.

(** ** End to end *)

(** What the loader returns is a live [RGBA] buffer, and one request was
    sent for it. *)
Lemma load_image_returns `{P : Platform} (url : string) (w w1 : World) (img : loc) :
  _load_image_from_url url w = (Ok img, w1) ->
  exists im,
    heap w1 !! img = Some im /\ im_mode im = ModeRGBA /\
    trace w1 = trace w ++ [EvGet url 10].
Proof.
  rewrite load_image_cases.
  destruct (urlparse url) as [err|parsed]; [discriminate|].
  destruct (negb _); [discriminate|]. cbv zeta.
  destruct (requests_get url 10) as [err|resp]; [discriminate|].
  destruct (negb _); [discriminate|].
  destruct (Image_open _) as [err|opened]; [discriminate|].
  intros [= <- <-]. exists (convert opened ModeRGBA). cbn [heap trace].
  split; [apply lookup_insert_eq|]. split; [apply convert_rgba_mode|reflexivity].
Qed.


(** * Further properties *)

(** ** Proportions of the label *)

Section Proportions.
Context `{P : Platform}.

Lemma metrics_order (width height : Z) (text : string) :
  let v := watermark_locals width height text in
  24 <= L.font_size v /\
  12 <= L.text_padding v /\
  1 <= L.shadow_offset v /\
  L.shadow_offset v <= L.bg_padding_y v /\
  4 <= L.bg_padding_y v /\
  L.bg_padding_y v <= L.bg_padding_x v /\
  6 <= L.bg_padding_x v /\
  L.bg_padding_x v < L.text_padding v.
Proof.
  pose proof (locals_fields width height text) as H. cbv zeta in *.
  destruct H as (Hfs & Hpad & _ & _ & _ & _ & _ & Hpx & Hpy & _ & Hoff).
  set (v := watermark_locals width height text) in *.
  rewrite Hpx, Hpy, Hoff, Hpad.
  assert (Hfs24 : 24 <= L.font_size v) by lia.
  clear Hfs Hpad Hpx Hpy Hoff. generalize dependent (L.font_size v). intros fs Hfs24.
  Z.div_mod_to_equations. lia.
Qed.

(** The sizes [_apply_watermark] derives from the width are ordered:
    the shadow offset is at most the vertical margin of the plate, that is
    at most the horizontal one, and that is less than the padding; none
    falls below its floor (1, 4, 6, 12 and 24 for the font). *)
Theorem label_metrics_ordered (width height : Z) (text : string) :
  let v := watermark_locals width height text in
  24 <= L.font_size v /\
  12 <= L.text_padding v /\
  1 <= L.shadow_offset v /\
  L.shadow_offset v <= L.bg_padding_y v /\
  4 <= L.bg_padding_y v /\
  L.bg_padding_y v <= L.bg_padding_x v /\
  6 <= L.bg_padding_x v /\
  L.bg_padding_x v < L.text_padding v.
Proof. exact (metrics_order width height text). Qed.


(** The bottom-right corner of the plate depends on the size of the image
    only, not on the text: it lies [padding - padX] left of the right edge
    and [padding - padY] above the bottom edge, at least 6 and 8 pixels.
    A longer text grows the plate to the left. *)
Theorem plate_corner_keeps_margin (width height : Z) (text text' : string) :
  let v := watermark_locals width height text in
  let v' := watermark_locals width height text' in
  let '(_, _, x1, y1) := L.rect_coords v in
  let '(_, _, x1', y1') := L.rect_coords v' in
  x1 = width - (L.text_padding v - L.bg_padding_x v) /\
  y1 = height - (L.text_padding v - L.bg_padding_y v) /\
  x1 <= width - 6 /\
  y1 <= height - 8 /\
  x1' = x1 /\ y1' = y1.
Proof.
  pose proof (metrics_order width height text) as Hm.
  pose proof (locals_fields width height text) as H.
  pose proof (locals_fields width height text') as H'. cbv zeta in *.
  destruct H as (Hfs & Hpad & _ & _ & _ & Hx & Hy & Hpx & Hpy & Hrect & _).
  destruct H' as (Hfs' & Hpad' & _ & _ & _ & Hx' & Hy' & Hpx' & Hpy' & Hrect' & _).
  rewrite Hrect, Hrect'.
  assert (L.text_padding (watermark_locals width height text') =
          L.text_padding (watermark_locals width height text)) as Ep by congruence.
  assert (L.bg_padding_x (watermark_locals width height text') =
          L.bg_padding_x (watermark_locals width height text)) as Ex by congruence.
  assert (L.bg_padding_y (watermark_locals width height text') =
          L.bg_padding_y (watermark_locals width height text)) as Ey by congruence.
  assert (L.bg_padding_y (watermark_locals width height text) <= 
          L.text_padding (watermark_locals width height text) - 8).
  { rewrite Hpy. destruct Hm as (_ & Hp12 & _). Z.div_mod_to_equations. lia. }
  assert (L.bg_padding_x (watermark_locals width height text) <=
          L.text_padding (watermark_locals width height text) - 6).
  { rewrite Hpx. destruct Hm as (_ & Hp12 & _). Z.div_mod_to_equations. lia. }
  lia.
Qed.

(** The label has one size on every image narrower than 1000 pixels and
    grows with the width from there on, by one pixel of font size for
    every 40 pixels of width. *)
Theorem font_size_scales_with_width (width width' height : Z) (text : string) :
  let v := watermark_locals width height text in
  let v' := watermark_locals width' height text in
  (L.font_size v = 24 <-> width < 1000) /\
  (1000 <= width -> 40 * L.font_size v <= width < 40 * (L.font_size v + 1)) /\
  (width <= width' -> L.font_size v <= L.font_size v').
Proof.
  pose proof (locals_fields width height text) as H.
  pose proof (locals_fields width' height text) as H'. cbv zeta in *.
  destruct H as (Hfs & _). destruct H' as (Hfs' & _).
  rewrite Hfs, Hfs'. Z.div_mod_to_equations. lia.
Qed.

End Proportions.


(** ** The compositor on pixels and on other buffers *)

Lemma Ref_blend_zero (d ink : Pixel) : Ref.blend d ink 0 = d.
Proof.
  destruct d as [r g b a]. unfold Ref.blend, Ref.mix. cbn [pr pg pb pa].
  rewrite !Z.mul_0_r, !Z.add_0_r. change (255 - 0) with 255.
  now rewrite !Z.div_mul by discriminate.
Qed.

Lemma Ref_over_clear (d s : Pixel) : pa s = 0 -> Ref.over d s = d.
Proof. intros H. unfold Ref.over. now rewrite H. Qed.

Section Pixels.
Context `{P : Platform}.

(** Where no glyph of the label or of its shadow falls, the overlay holds
    the ink of the plate inside the box and nothing outside it. *)
Lemma overlay_without_glyph (size : Z * Z) (text : string) (v : L.t)
    (x0 y0 x1 y1 px py : Z) :
  (forall d ink, blend d ink 0 = d) ->
  L.rect_coords v = (x0, y0, x1, y1) ->
  getmask (L.font v) text (px - (L.x v + L.shadow_offset v))
    (py - (L.y v + L.shadow_offset v)) = 0 ->
  getmask (L.font v) text (px - L.x v) (py - L.y v) = 0 ->
  im_px (overlay_of size text v) px py =
    if in_canvas size px py && (x0 <=? px) && (px <=? x1) && (y0 <=? py) && (py <=? y1)
    then mkPixel 0 0 0 90 else mkPixel 0 0 0 0.
Proof.
  intros Hblend Hrect Hshadow Hlabel.
  unfold overlay_of, draw_text, draw_rectangle, Image_new.
  cbn [im_px im_size im_mode fst snd]. rewrite Hrect, Hshadow, Hlabel, !Hblend.
  destruct (in_canvas size px py); reflexivity.
Qed.

(** A mode-[RGB] buffer handed to [_apply_watermark] directly is refused:
    the three drawing calls are made on the overlay, then
    [Image.alpha_composite] raises [ValueError]; the buffers that existed
    before the call are as they were. *)
Theorem composite_rejects_rgb_buffer
    (w : World) (img : loc) (im : Image) (text : string) :
  heap w !! img = Some im ->
  im_mode im = ModeRGB ->
  exists (w' : World) (evs : list Event),
    _apply_watermark img text w =
      (Raise (Exception (ValueError "image has wrong mode")), w') /\
    trace w' = trace w ++ evs /\
    List.length (rectangles evs) = 1%nat /\
    List.length (texts evs) = 2%nat /\
    (forall l o, heap w !! l = Some o -> heap w' !! l = Some o).
Proof.
  intros Himg Hmode. unfold _apply_watermark.
  rewrite (bind_ok _ _ _ _ _ (Image_size_ok _ _ _ Himg)).
  destruct (im_size im) as [width height] eqn:Hsize.
  rewrite (bind_ok _ _ _ _ _ (Image_copy_ok _ _ _ Himg)).
  unfold Image_new_obj. erewrite bind_ok by reflexivity.
  cbn [heap trace fst snd] in *.
  erewrite bind_ok by (apply ImageDraw_rectangle_ok; apply lookup_insert_eq).
  erewrite bind_ok by (apply ImageDraw_text_ok; apply lookup_insert_eq).
  erewrite bind_ok by (apply ImageDraw_text_ok; apply lookup_insert_eq).
  cbn [heap trace]. rewrite !insert_insert_eq.
  set (h1 := <[fresh (dom (heap w)) := im]> (heap w)).
  eexists _, _. split.
  - apply bind_raise. unfold Image_alpha_composite.
    erewrite bind_ok; cycle 1.
    { apply deref_ok. cbn [heap]. rewrite lookup_insert_ne.
      - apply lookup_insert_eq.
      - apply fresh_ne_live with im. apply lookup_insert_eq. }
    erewrite bind_ok by (apply deref_ok; apply lookup_insert_eq).
    unfold alpha_composite. rewrite Hmode. reflexivity.
  - cbn [heap trace]. split; [rewrite <- !app_assoc; reflexivity|].
    split; [reflexivity|]. split; [reflexivity|].
    intros l o H. apply alloc_frame. now apply alloc_frame.
Qed.

(** With a blend that leaves a pixel alone at coverage 0 and an
    alpha-over that returns the destination under a transparent source,
    the watermark touches the label only: a pixel outside the plate on
    which no glyph falls leaves [_apply_watermark] with the red, green and
    blue of the input, and alpha 255. *)
Theorem pixels_away_from_label_kept
    (w : World) (img : loc) (im : Image) (text : string) (px py : Z) :
  heap w !! img = Some im ->
  im_mode im = ModeRGBA ->
  (forall d ink, blend d ink 0 = d) ->
  (forall d s, pa s = 0 -> over d s = d) ->
  let v := watermark_locals (fst (im_size im)) (snd (im_size im)) text in
  ~ (L.x v - L.bg_padding_x v <= px <= L.x v + L.text_w v + L.bg_padding_x v /\
     L.y v - L.bg_padding_y v <= py <= L.y v + L.text_h v + L.bg_padding_y v) ->
  getmask (L.font v) text (px - (L.x v + L.shadow_offset v))
    (py - (L.y v + L.shadow_offset v)) = 0 ->
  getmask (L.font v) text (px - L.x v) (py - L.y v) = 0 ->
  exists (out : loc) (w' : World) (res : Image),
    _apply_watermark img text w = (Ok out, w') /\
    heap w' !! out = Some res /\
    im_px res px py =
      mkPixel (pr (im_px im px py)) (pg (im_px im px py)) (pb (im_px im px py)) 255.
Proof.
  intros Himg Hmode Hblend Hover v Hout Hshadow Hlabel.
  destruct (apply_watermark_spec w img im text Himg Hmode)
    as (out & layer & w' & Hrun & _ & _ & _ & _ & Hres & _).
  fold v in Hres.
  pose proof (locals_fields (fst (im_size im)) (snd (im_size im)) text) as H.
  cbv zeta in H. fold v in H.
  destruct H as (_ & _ & _ & _ & _ & _ & _ & _ & _ & Hrect & _).
  exists out, w'. eexists. split; [exact Hrun|]. split; [exact Hres|].
  unfold convert, composed_of. cbn [im_mode im_px im_size].
  rewrite (overlay_without_glyph _ _ _ _ _ _ _ px py Hblend Hrect Hshadow Hlabel).
  replace (_ && _ && _ && _ && _) with false.
  - now rewrite Hover.
  - symmetry. rewrite !andb_false_iff, !Z.leb_gt.
    destruct (Z.leb_spec (L.x v - L.bg_padding_x v) px);
      destruct (Z.leb_spec px (L.x v + L.text_w v + L.bg_padding_x v));
      destruct (Z.leb_spec (L.y v - L.bg_padding_y v) py);
      destruct (Z.leb_spec py (L.y v + L.text_h v + L.bg_padding_y v));
      try tauto; exfalso; apply Hout; lia.
Qed.

(** A canvas pixel of the plate on which no glyph falls is the
    alpha-over of black at alpha 90 on the input pixel, made opaque. *)
Theorem plate_darkens_its_pixels
    (w : World) (img : loc) (im : Image) (text : string) (px py : Z) :
  heap w !! img = Some im ->
  im_mode im = ModeRGBA ->
  (forall d ink, blend d ink 0 = d) ->
  let v := watermark_locals (fst (im_size im)) (snd (im_size im)) text in
  0 <= px < fst (im_size im) ->
  0 <= py < snd (im_size im) ->
  L.x v - L.bg_padding_x v <= px <= L.x v + L.text_w v + L.bg_padding_x v ->
  L.y v - L.bg_padding_y v <= py <= L.y v + L.text_h v + L.bg_padding_y v ->
  getmask (L.font v) text (px - (L.x v + L.shadow_offset v))
    (py - (L.y v + L.shadow_offset v)) = 0 ->
  getmask (L.font v) text (px - L.x v) (py - L.y v) = 0 ->
  exists (out : loc) (w' : World) (res : Image),
    _apply_watermark img text w = (Ok out, w') /\
    heap w' !! out = Some res /\
    im_px res px py =
      (let q := over (im_px im px py) (mkPixel 0 0 0 90) in
       mkPixel (pr q) (pg q) (pb q) 255).
Proof.
  intros Himg Hmode Hblend v Hpx Hpy Hbx Hby Hshadow Hlabel.
  destruct (apply_watermark_spec w img im text Himg Hmode)
    as (out & layer & w' & Hrun & _ & _ & _ & _ & Hres & _).
  fold v in Hres.
  pose proof (locals_fields (fst (im_size im)) (snd (im_size im)) text) as H.
  cbv zeta in H. fold v in H.
  destruct H as (_ & _ & _ & _ & _ & _ & _ & _ & _ & Hrect & _).
  exists out, w'. eexists. split; [exact Hrun|]. split; [exact Hres|].
  unfold convert, composed_of. cbn [im_mode im_px im_size].
  rewrite (overlay_without_glyph _ _ _ _ _ _ _ px py Hblend Hrect Hshadow Hlabel).
  replace (_ && _ && _ && _ && _) with true; [reflexivity|].
  symmetry. unfold in_canvas. rewrite !andb_true_iff, !Z.leb_le, !Z.ltb_lt. lia.
Qed.

End Pixels.

Lemma composite_rejects_rgb_buffer_witness :
  heap (mkWorld {[ 1%positive := Ref.source ]} []) !! 1%positive = Some Ref.source /\
  im_mode Ref.source = ModeRGB /\
  exists (w' : World) (evs : list Event),
    @_apply_watermark Ref.platform 1%positive "made by afthab"
      (mkWorld {[ 1%positive := Ref.source ]} []) =
      (Raise (Exception (ValueError "image has wrong mode")), w') /\
    trace w' = [] ++ evs /\
    List.length (rectangles evs) = 1%nat /\
    List.length (texts evs) = 2%nat.
Proof.
  assert (Hlive : heap (mkWorld {[ 1%positive := Ref.source ]} []) !! 1%positive
                  = Some Ref.source) by reflexivity.
  split; [exact Hlive|]. split; [reflexivity|].
  destruct (@composite_rejects_rgb_buffer Ref.platform _ 1%positive Ref.source
              "made by afthab" Hlive eq_refl)
    as (w' & evs & Hrun & Htr & Hr & Ht & _).
  exists w', evs. repeat split; assumption.
Defined.

Lemma pixels_away_from_label_kept_witness :
  heap Ref.world1 !! 1%positive = Some Ref.canvas /\
  im_mode Ref.canvas = ModeRGBA /\
  exists (out : loc) (w' : World) (res : Image),
    @_apply_watermark Ref.platform 1%positive "made by afthab" Ref.world1 = (Ok out, w') /\
    heap w' !! out = Some res /\
    im_px res 0 0 = mkPixel 30 60 90 255.
Proof.
  split; [reflexivity|]. split; [reflexivity|].
  apply (@pixels_away_from_label_kept Ref.platform Ref.world1 1%positive Ref.canvas
           "made by afthab" 0 0 eq_refl eq_refl Ref_blend_zero Ref_over_clear).
  - vm_compute. intros [[H _] _]. apply H. reflexivity.
  - reflexivity.
  - reflexivity.
Defined.

Lemma plate_darkens_its_pixels_witness :
  heap Ref.world1 !! 1%positive = Some Ref.canvas /\
  im_mode Ref.canvas = ModeRGBA /\
  exists (out : loc) (w' : World) (res : Image),
    @_apply_watermark Ref.platform 1%positive "made by afthab" Ref.world1 = (Ok out, w') /\
    heap w' !! out = Some res /\
    im_px res 98 73 = mkPixel 19 38 58 255.
Proof.
  split; [reflexivity|]. split; [reflexivity|].
  apply (@plate_darkens_its_pixels Ref.platform Ref.world1 1%positive Ref.canvas
           "made by afthab" 98 73 eq_refl eq_refl Ref_blend_zero);
    vm_compute; repeat split; discriminate || reflexivity.
Defined.

(** ** The loader *)

Section Loader.
Context `{P : Platform}.

Lemma scheme_accepted (parsed : ParseResult) :
  negb (String.eqb (scheme parsed) "http" || String.eqb (scheme parsed) "https") = false <->
  scheme parsed = "http"%string \/ scheme parsed = "https"%string.
Proof.
  rewrite negb_false_iff, orb_true_iff, !String.eqb_eq. reflexivity.
Qed.

(** The path of [_load_image_from_url] that returns. *)
Lemma load_image_ok (url : string) (w : World) parsed resp opened :
  urlparse url = inr parsed ->
  scheme parsed = "http"%string \/ scheme parsed = "https"%string ->
  requests_get url 10 = inr resp ->
  status_code resp = 200 ->
  Image_open (content resp) = inr opened ->
  let h1 := <[fresh (dom (heap w)) := opened]> (heap w) in
  _load_image_from_url url w =
    (Ok (fresh (dom h1)),
     mkWorld (<[fresh (dom h1) := convert opened ModeRGBA]> h1)
       (trace w ++ [EvGet url 10])).
Proof.
  intros Hp Hs Hget Hst Hopen. rewrite load_image_cases, Hp.
  apply scheme_accepted in Hs. rewrite Hs. cbv zeta.
  now rewrite Hget, Hst, Hopen.
Qed.

(** [_load_image_from_url] returns exactly when the url parses with
    scheme [http] or [https], the request is answered with status 200 and
    the body decodes; what it returns is a new buffer, the decoded picture
    converted to [RGBA], of the same size. *)
Theorem loader_returns_exactly_when (url : string) (w : World) :
  (forall img w',
      _load_image_from_url url w = (Ok img, w') ->
      exists parsed resp opened,
        urlparse url = inr parsed /\
        (scheme parsed = "http"%string \/ scheme parsed = "https"%string) /\
        requests_get url 10 = inr resp /\
        status_code resp = 200 /\
        Image_open (content resp) = inr opened /\
        heap w' !! img = Some (convert opened ModeRGBA) /\
        heap w !! img = None) /\
  (forall parsed resp opened,
      urlparse url = inr parsed ->
      scheme parsed = "http"%string \/ scheme parsed = "https"%string ->
      requests_get url 10 = inr resp ->
      status_code resp = 200 ->
      Image_open (content resp) = inr opened ->
      exists img w',
        _load_image_from_url url w = (Ok img, w') /\
        heap w' !! img = Some (convert opened ModeRGBA) /\
        im_mode (convert opened ModeRGBA) = ModeRGBA /\
        im_size (convert opened ModeRGBA) = im_size opened).
Proof.
  split.
  - intros img w'. rewrite load_image_cases.
    destruct (urlparse url) as [err|parsed]; [discriminate|].
    destruct (negb _) eqn:Hs; [discriminate|]. apply scheme_accepted in Hs. cbv zeta.
    destruct (requests_get url 10) as [err|resp]; [discriminate|].
    destruct (negb _) eqn:Hst; [discriminate|].
    apply negb_false_iff, Z.eqb_eq in Hst.
    destruct (Image_open _) as [err|opened] eqn:Hopen; [discriminate|].
    intros [= <- <-]. exists parsed, resp, opened. cbn [heap].
    repeat split; try assumption; try reflexivity.
    + apply lookup_insert_eq.
    + apply fresh_ext_not_live. intros l o H. now apply alloc_frame.
  - intros parsed resp opened Hp Hs Hget Hst Hopen.
    eexists _, _. split; [now apply (load_image_ok url w parsed resp opened)|].
    cbn [heap]. split; [apply lookup_insert_eq|].
    split; [apply convert_rgba_mode|apply convert_size].
Qed.

(** Whatever its outcome, [_load_image_from_url] sends at most one
    request, for the url it was given and with a timeout of 10 seconds,
    makes no drawing call and leaves every live buffer as it was; when it
    raises, it has created no buffer at all. *)
Theorem loader_effects_are_bounded (url : string) (w : World) :
  let run := _load_image_from_url url w in
  (trace (snd run) = trace w \/ trace (snd run) = trace w ++ [EvGet url 10]) /\
  (forall l o, heap w !! l = Some o -> heap (snd run) !! l = Some o) /\
  (forall e, fst run = Raise e -> heap (snd run) = heap w).
Proof.
  cbv zeta. rewrite load_image_cases.
  destruct (urlparse url) as [err|parsed]; [cbn; auto|].
  destruct (negb _); [cbn; auto|]. cbv zeta.
  destruct (requests_get url 10) as [err|resp]; [cbn; auto|].
  destruct (negb _); [cbn; auto|].
  destruct (Image_open _) as [err|opened]; [cbn; auto|].
  cbn [fst snd heap trace]. split; [now right|]. split; [|discriminate].
  intros l o H. apply alloc_frame. now apply alloc_frame.
Qed.

End Loader.

Lemma loader_returns_exactly_when_witness :
  exists img w',
    @_load_image_from_url Ref.platform "https://example.com/a.raw" (mkWorld ∅ []) = (Ok img, w') /\
    heap w' !! img = Some Ref.loaded /\
    im_mode Ref.loaded = ModeRGBA /\
    im_size Ref.loaded = (4, 3).
Proof.
  destruct (proj2 (@loader_returns_exactly_when Ref.platform "https://example.com/a.raw"
                     (mkWorld ∅ []))
              (mkParseResult "https" "//example.com/a.raw") (mkResponse 200 Ref.picture)
              Ref.source eq_refl (or_intror eq_refl) eq_refl eq_refl eq_refl)
    as (img & w' & Hrun & Hlive & Hmode & Hsize).
  exists img, w'. split; [exact Hrun|]. split; [exact Hlive|].
  split; reflexivity.
Defined.

(** ** The endpoint *)

Section Endpoint.
Context `{P : Platform}.

Lemma load_image_world (url : string) (w : World) :
  exists evs,
    trace (snd (_load_image_from_url url w)) = trace w ++ evs /\
    (evs = [] \/ evs = [EvGet url 10]) /\
    (forall l o, heap w !! l = Some o ->
                 heap (snd (_load_image_from_url url w)) !! l = Some o).
Proof.
  assert (Hnil : trace w = trace w ++ []) by now rewrite app_nil_r.
  rewrite load_image_cases.
  destruct (urlparse url) as [err|parsed]; [exists []; cbn; auto|].
  destruct (negb _); [exists []; cbn; auto|]. cbv zeta.
  destruct (requests_get url 10) as [err|resp]; [exists [EvGet url 10]; cbn; auto|].
  destruct (negb _); [exists [EvGet url 10]; cbn; auto|].
  destruct (Image_open _) as [err|opened]; [exists [EvGet url 10]; cbn; auto|].
  exists [EvGet url 10]. cbn [fst snd heap trace]. split; [reflexivity|].
  split; [now right|]. intros l o H. apply alloc_frame. now apply alloc_frame.
Qed.


Lemma load_image_raises_400 (url : string) (w w1 : World) (e : Exn) :
  _load_image_from_url url w = (Raise e, w1) -> e = unable \/ e = failed_fetch.
Proof.
  rewrite load_image_cases.
  destruct (urlparse url) as [err|parsed]; [intros [= <- _]; now left|].
  destruct (negb _); [intros [= <- _]; now left|]. cbv zeta.
  destruct (requests_get url 10) as [err|resp]; [intros [= <- _]; now left|].
  destruct (negb _); [intros [= <- _]; now right|].
  destruct (Image_open _) as [err|opened]; [intros [= <- _]; now left|].
  discriminate.
Qed.

(** The endpoint with a fallible encoder, once the loader has returned
    the buffer [im] at [img]: the outcome is the encoder's. *)
Lemma watermark_image_with_after_load
    (encode : Image -> Z -> bool -> LibError + list Byte.byte)
    (url : string) (text : option string) (w w1 : World) (img : loc) (im : Image) :
  _load_image_from_url url w = (Ok img, w1) ->
  heap w1 !! img = Some im ->
  im_mode im = ModeRGBA ->
  let wm := match text with
            | Some s => if truthy text then s else default_text
            | None => default_text
            end in
  let v := watermark_locals (fst (im_size im)) (snd (im_size im)) wm in
  let res := convert (composed_of im (overlay_of (im_size im) wm v)) ModeRGB in
  exists (out layer : loc) (w' : World),
    watermark_image_with encode url text w =
      (match encode res 90 true with
       | inr bytes => Ok (mkStreamingResponse bytes "image/jpeg")
       | inl e => Raise (Exception e)
       end, w') /\
    trace w' = trace w1 ++
      [EvRectangle layer (L.rect_coords v) (mkPixel 0 0 0 90);
       EvText layer (L.x v + L.shadow_offset v, L.y v + L.shadow_offset v)
         wm (L.font v) (mkPixel 0 0 0 200);
       EvText layer (L.x v, L.y v) wm (L.font v) (mkPixel 255 255 255 220)] /\
    heap w' !! out = Some res /\
    (forall l o, heap w1 !! l = Some o -> heap w' !! l = Some o).
Proof.
  intros Hload Him Hmode wm v res.
  destruct (apply_watermark_spec w1 img im wm Him Hmode)
    as (out & layer & w2 & Hrun & Htr & _ & _ & _ & Hout & Hframe).
  fold v in Htr, Hout. fold res in Hout.
  exists out, layer, w2. split; [|auto].
  unfold watermark_image_with. rewrite (bind_ok _ _ _ _ _ Hload). fold wm.
  rewrite (bind_ok _ _ _ _ _ Hrun).
  assert (Hsave : Image_save_jpeg_with encode out 90 true w2 =
                  (match encode res 90 true with
                   | inr bytes => Ok bytes
                   | inl e => Raise (Exception e)
                   end, w2)).
  { unfold Image_save_jpeg_with. rewrite (bind_ok _ _ _ _ _ (deref_ok _ _ _ Hout)).
    unfold res at 1. rewrite convert_mode. now destruct (encode res 90 true). }
  unfold bind at 1. rewrite Hsave. now destruct (encode res 90 true).
Qed.

(** [watermark_image] is the endpoint for an encoder that never fails. *)
Lemma watermark_image_is_with (url : string) (text : option string) :
  watermark_image url text =
    watermark_image_with (fun im quality optimize => inr (jpeg_encode im quality optimize))
      url text.
Proof. reflexivity. Qed.

(** When the url is accepted, the request answered with status 200 and
    the body decodes, the loader's one request and the three drawing calls
    are made, and the outcome is the encoder's, called at quality 90 with
    optimisation on, on an [RGB] buffer of the size of the decoded
    picture: its bytes come back as an [image/jpeg] response, and what it
    raises reaches the caller as it is, not as an HTTP 400. *)
Theorem watermark_image_encodes_or_raises
    (encode : Image -> Z -> bool -> LibError + list Byte.byte)
    (url : string) (text : option string) (w : World) parsed resp opened :
  urlparse url = inr parsed ->
  scheme parsed = "http"%string \/ scheme parsed = "https"%string ->
  requests_get url 10 = inr resp ->
  status_code resp = 200 ->
  Image_open (content resp) = inr opened ->
  exists (w' : World) (out : loc) (res : Image) (evs : list Event),
    heap w' !! out = Some res /\
    im_mode res = ModeRGB /\
    im_size res = im_size opened /\
    trace w' = trace w ++ EvGet url 10 :: evs /\
    requests_sent evs = [] /\
    List.length (rectangles evs) = 1%nat /\
    List.length (texts evs) = 2%nat /\
    (forall bytes,
        encode res 90 true = inr bytes ->
        watermark_image_with encode url text w =
          (Ok (mkStreamingResponse bytes "image/jpeg"), w')) /\
    (forall e,
        encode res 90 true = inl e ->
        watermark_image_with encode url text w = (Raise (Exception e), w')).
Proof.
  intros Hp Hs Hget Hst Hopen.
  pose proof (load_image_ok url w parsed resp opened Hp Hs Hget Hst Hopen) as Hload.
  cbv zeta in Hload.
  edestruct (watermark_image_with_after_load encode url text)
    as (out & layer & w' & Hrun & Htr & Hout & _);
    [exact Hload | apply lookup_insert_eq | apply convert_rgba_mode |].
  cbv zeta in *. cbn [trace] in Htr.
  eexists w', out, _, _. split; [exact Hout|].
  split; [apply convert_mode|].
  split; [rewrite convert_size; unfold composed_of; cbn [im_size]; apply convert_size|].
  split; [rewrite Htr, <- app_assoc; reflexivity|].
  split; [reflexivity|]. split; [reflexivity|]. split; [reflexivity|].
  split; [intros bytes E | intros e E]; rewrite Hrun, E; reflexivity.
Qed.


(** Whatever the outcome and whatever the encoder does, the endpoint sends
    at most one request, for the url it was given with a timeout of 10
    seconds, and leaves every buffer that existed before as it was.  An
    HTTP error it raises is a 400 from the loader, raised before any
    drawing call; any other exception it raises is the encoder's, raised
    after the rectangle call and the two text calls. *)
Theorem endpoint_effects_are_bounded
    (encode : Image -> Z -> bool -> LibError + list Byte.byte)
    (url : string) (text : option string) (w : World) :
  let run := watermark_image_with encode url text w in
  exists evs,
    trace (snd run) = trace w ++ evs /\
    (requests_sent evs = [] \/ requests_sent evs = [(url, 10)]) /\
    (forall l o, heap w !! l = Some o -> heap (snd run) !! l = Some o) /\
    (forall status detail,
        fst run = Raise (HTTPException status detail) ->
        status = 400 /\ rectangles evs = [] /\ texts evs = []) /\
    (forall e,
        fst run = Raise (Exception e) ->
        List.length (rectangles evs) = 1%nat /\ List.length (texts evs) = 2%nat).
Proof.
  cbv zeta.
  destruct (load_image_world url w) as (evs & Htr & Hevs & Hframe).
  destruct (_load_image_from_url url w) as [[img|e] w1] eqn:Hload; cbn [fst snd] in *.
  - destruct (load_image_returns url w w1 img Hload) as (im & Him & Hmode & Hget).
    destruct (watermark_image_with_after_load encode url text w w1 img im Hload Him Hmode)
      as (out & layer & w' & Hrun & Htr' & _ & Hframe').
    cbv zeta in *. rewrite Hrun. cbn [fst snd].
    eexists. split; [rewrite Htr', Hget, <- app_assoc; reflexivity|].
    split; [now right|]. split; [auto|].
    split; [|intros; split; reflexivity].
    intros status detail H. destruct (encode _ 90 true); discriminate H.
  - assert (Hrun : watermark_image_with encode url text w = (Raise e, w1))
      by (unfold watermark_image_with; now apply bind_raise).
    rewrite Hrun. cbn [fst snd].
    exists evs. split; [exact Htr|].
    split; [destruct Hevs as [-> | ->]; cbn; auto|].
    split; [exact Hframe|].
    destruct (load_image_raises_400 url w w1 e Hload) as [-> | ->];
      (split; [intros status detail [= <- _]; destruct Hevs as [-> | ->]; cbn; auto
              | intros e' H; discriminate H]).
Qed.

End Endpoint.

Lemma watermark_image_encodes_or_raises_witness :
  (exists (answer : StreamingResponse) (w' : World),
      @watermark_image_with Ref.platform Ref2.encode_limited
        "https://example.com/a.raw" None (mkWorld ∅ []) = (Ok answer, w') /\
      media_type answer = "image/jpeg"%string /\
      body answer = [Byte.xff; Byte.xd8; Byte.xff; Byte.xd9]) /\
  (exists (w' : World) (evs : list Event),
      @watermark_image_with Ref2.wide_platform Ref2.encode_limited
        "https://example.com/a.raw" None (mkWorld ∅ []) =
        (Raise (Exception (OSError "encoder error")), w') /\
      trace w' = EvGet "https://example.com/a.raw" 10 :: evs /\
      List.length (texts evs) = 2%nat).
Proof.
  split.
  - destruct (@watermark_image_encodes_or_raises Ref.platform Ref2.encode_limited
                "https://example.com/a.raw" None
                (mkWorld ∅ []) (mkParseResult "https" "//example.com/a.raw")
                (mkResponse 200 Ref.picture) Ref.source
                eq_refl (or_intror eq_refl) eq_refl eq_refl eq_refl)
      as (w' & out & res & evs & _ & _ & Hsize & _ & _ & _ & _ & Hok & _).
    eexists _, w'. split; [apply Hok|split; reflexivity].
    unfold Ref2.encode_limited. rewrite Hsize. reflexivity.
  - destruct (@watermark_image_encodes_or_raises Ref2.wide_platform Ref2.encode_limited
                "https://example.com/a.raw" None
                (mkWorld ∅ []) (mkParseResult "https" "//example.com/a.raw")
                (mkResponse 200 Ref.picture)
                (Image_new ModeRGB (70000, 1) (mkPixel 128 128 128 255))
                eq_refl (or_intror eq_refl) eq_refl eq_refl eq_refl)
      as (w' & out & res & evs & _ & _ & Hsize & Htr & _ & _ & Htexts & _ & Hraise).
    exists w', evs. split; [|split; [exact Htr|exact Htexts]].
    apply Hraise. unfold Ref2.encode_limited. rewrite Hsize. reflexivity.
Defined.


(** ** The catalog *)

(** The items [list_wallpapers] returns have pairwise distinct ids and
    every [src] among them starts with [https://]; when [urlparse] reads
    that scheme off an item's [src], the loader does not reject the url:
    the request for it is sent. *)
Theorem catalog_entries_are_loadable `{P : Platform}
    (w : World) (items : list W.t) (item : W.t) (parsed : ParseResult) :
  list_wallpapers !! "items"%string = Some items ->
  In item items ->
  urlparse (W.src item) = inr parsed ->
  scheme parsed = "https"%string ->
  NoDup (map W.id items) /\
  Forall (fun it => String.prefix "https://" (W.src it) = true) items /\
  trace (snd (_load_image_from_url (W.src item) w)) = trace w ++ [EvGet (W.src item) 10].
Proof.
  intros Hitems Hin Hparse Hscheme. unfold list_wallpapers in Hitems.
  rewrite lookup_singleton_eq in Hitems. injection Hitems as <-. split; [compute_done|].
  split; [repeat constructor|].
  rewrite load_image_cases, Hparse, Hscheme.
  change (negb (String.eqb "https" "http" || String.eqb "https" "https")) with false.
  cbv zeta. cbv iota.
  destruct (requests_get _ 10) as [err|resp]; [reflexivity|].
  destruct (negb _); [reflexivity|].
  destruct (Image_open _) as [err|opened]; reflexivity.
Qed.

Lemma catalog_entries_are_loadable_witness :
  In (W.mk "w2" "Forest Mist"
        "https://images.unsplash.com/photo-1441974231531-c6227db76b6e?w=3840&q=80&auto=format&fit=crop")
     WALLPAPERS /\
  scheme (mkParseResult "https"
     "//images.unsplash.com/photo-1441974231531-c6227db76b6e?w=3840&q=80&auto=format&fit=crop")
    = "https"%string /\
  trace (snd (@_load_image_from_url Ref.platform
     "https://images.unsplash.com/photo-1441974231531-c6227db76b6e?w=3840&q=80&auto=format&fit=crop"
     (mkWorld ∅ []))) =
    [EvGet "https://images.unsplash.com/photo-1441974231531-c6227db76b6e?w=3840&q=80&auto=format&fit=crop" 10].
Proof.
  assert (Hin : In (W.mk "w2" "Forest Mist"
        "https://images.unsplash.com/photo-1441974231531-c6227db76b6e?w=3840&q=80&auto=format&fit=crop")
     WALLPAPERS) by (right; left; reflexivity).
  split; [exact Hin|]. split; [reflexivity|].
  apply (@catalog_entries_are_loadable Ref.platform (mkWorld ∅ []) WALLPAPERS _
           (mkParseResult "https"
              "//images.unsplash.com/photo-1441974231531-c6227db76b6e?w=3840&q=80&auto=format&fit=crop")
           eq_refl Hin eq_refl eq_refl).
Defined.

(** ** The diagnostic endpoint *)

Module DiagFacts.
Import Diag.

Lemma py_len_take (n : nat) (s : string) : (py_len (py_take n s) <= n)%nat.
Proof.
  revert n. induction s as [|c r IH]; intros n; cbn; [lia|].
  destruct (is_continuation c) eqn:E; cbn; rewrite ?E.
  - apply IH.
  - destruct n as [|n]; cbn; rewrite ?E; [lia|]. specialize (IH n). lia.
Qed.

Lemma py_take_prefix (n : nat) (s : string) : exists rest, s = (py_take n s ++ rest)%string.
Proof.
  revert n. induction s as [|c r IH]; intros n; cbn; [now exists EmptyString|].
  destruct (is_continuation c).
  - destruct (IH n) as (rest & E). exists rest.
    change (String c r = String c (py_take n r ++ rest)%string). now f_equal.
  - destruct n as [|n]; [now exists (String c r)|].
    destruct (IH n) as (rest & E). exists rest.
    change (String c r = String c (py_take n r ++ rest)%string). now f_equal.
Qed.

Lemma py_take_all (n : nat) (s : string) : (py_len s <= n)%nat -> py_take n s = s.
Proof.
  revert n. induction s as [|c r IH]; intros n; cbn; [reflexivity|].
  destruct (is_continuation c); intros H.
  - now rewrite IH.
  - destruct n as [|n]; [lia|]. rewrite IH; [reflexivity|lia].
Qed.

(** The dict [test_database] returns, case by case. *)
Lemma test_database_cases (database : PyExn + option Db) (getenv : string -> option string) :
  let env_url :=
    VStr (if truthy (getenv "DATABASE_URL") then "✅ Set" else "❌ Not Set") in
  let env_name :=
    VStr (if truthy (getenv "DATABASE_NAME") then "✅ Set" else "❌ Not Set") in
  let finish (r : gmap string Value) : PyExn + gmap string Value :=
    inr (<["database_name"%string := env_name]> (<["database_url"%string := env_url]> r)) in
  test_database database getenv =
    match database with
    | inl (ImportError _) =>
        finish (<["database"%string :=
                   VStr "❌ Database module not found (run enable-database first)"]> response0)
    | inl (OtherException msg) =>
        finish (<["database"%string := VStr ("❌ Error: " ++ py_take 50 msg)]> response0)
    | inr None =>
        finish (<["database"%string := VStr "⚠️  Available but not initialized"]> response0)
    | inr (Some db) =>
        let connected :=
          <["connection_status"%string := VStr "Connected"]>
          (<["database_name"%string :=
               match name db with Some v => v | None => VStr "✅ Connected" end]>
          (<["database_url"%string := VStr "✅ Configured"]>
          (<["database"%string := VStr "✅ Available"]> response0))) in
        match list_collection_names db with
        | inr collections =>
            finish (<["database"%string := VStr "✅ Connected & Working"]>
                    (<["collections"%string := VList (firstn 10 collections)]> connected))
        | inl e =>
            finish (<["database"%string :=
                       VStr ("⚠️  Connected but Error: " ++ py_take 50 (str e))]> connected)
        end
    end.
Proof.
  cbv zeta. unfold test_database.
  destruct database as [[msg|msg]|[[nm [e|collections]]|]]; reflexivity.
Qed.

End DiagFacts.

Module DiagAnyFacts.
Import DiagAny.

(** What [test_database] returns or raises, case by case. *)
Lemma test_database_any_cases (database : Raised + option Db) (getenv : string -> option string) :
  test_database database getenv =
    match database with
    | inl (BaseEx msg) => inl (BaseEx msg)
    | inl (Ex e) => finish getenv (caught e Diag.response0)
    | inr None =>
        finish getenv
          (<["database"%string := Diag.VStr "⚠️  Available but not initialized"]>
             Diag.response0)
    | inr (Some db) =>
        let seen :=
          <["database_url"%string := Diag.VStr "✅ Configured"]>
          (<["database"%string := Diag.VStr "✅ Available"]> Diag.response0) in
        let connected (v : Diag.Value) :=
          <["connection_status"%string := Diag.VStr "Connected"]>
          (<["database_name"%string := v]> seen) in
        let listed (v : Diag.Value) :=
          match list_collection_names db with
          | inr collections =>
              finish getenv
                (<["database"%string := Diag.VStr "✅ Connected & Working"]>
                 (<["collections"%string := Diag.VList (firstn 10 collections)]>
                    (connected v)))
          | inl (Ex e) =>
              finish getenv
                (<["database"%string :=
                     Diag.VStr ("⚠️  Connected but Error: " ++ Diag.py_take 50 (Diag.str e))]>
                   (connected v))
          | inl (BaseEx msg) => inl (BaseEx msg)
          end in
        match name db with
        | Has v => listed v
        | Missing => listed (Diag.VStr "✅ Connected")
        | Raises (Ex e) => finish getenv (caught e seen)
        | Raises (BaseEx msg) => inl (BaseEx msg)
        end
    end.
Proof.
  unfold test_database.
  destruct database as [[[msg|msg]|msg]|[[nm lc]|]]; try reflexivity.
  destruct nm as [v| |[[msg|msg]|msg]]; try reflexivity;
    destruct lc as [[e|msg]|collections]; reflexivity.
Qed.

(** On the imports and objects of [Diag] the two models agree. *)
Lemma test_database_of_import (database : Diag.PyExn + option Diag.Db)
    (getenv : string -> option string) :
  test_database (of_import database) getenv =
    of_result (Diag.test_database database getenv).
Proof.
  rewrite test_database_any_cases, DiagFacts.test_database_cases.
  destruct database as [[msg|msg]|[[[v|] [e|collections]]|]]; reflexivity.
Qed.

End DiagAnyFacts.

(** [test_database] raises only what [except Exception] does not catch.
    When the import, the reading of [db.name] or, after that reading went
    through, the listing raises a [BaseException] outside [Exception],
    that exception leaves the function; in every other case the function
    returns a dict with the same six keys, and [backend] says running. *)
Theorem diagnostic_raises_only_uncaught
    (database : DiagAny.Raised + option DiagAny.Db) (getenv : string -> option string) :
  match DiagAny.escapes database with
  | Some msg => DiagAny.test_database database getenv = inl (DiagAny.BaseEx msg)
  | None =>
      exists resp : gmap string Diag.Value,
        DiagAny.test_database database getenv = inr resp /\
        dom resp =
          ({["backend"; "database"; "database_url"; "database_name";
             "connection_status"; "collections"]} : gset string)%string /\
        resp !! "backend"%string = Some (Diag.VStr "✅ Running")
  end.
Proof.
  rewrite DiagAnyFacts.test_database_any_cases. cbv zeta.
  unfold DiagAny.finish, DiagAny.caught, Diag.response0.
  destruct database as [[[msg|msg]|msg]|[[nm lc]|]]; cbn [DiagAny.escapes];
    [| | reflexivity | |];
    try (eexists; (split; [reflexivity|]);
         (split; [rewrite !dom_insert_L, dom_empty_L; set_solver | by simplify_map_eq])).
  cbn [DiagAny.name DiagAny.list_collection_names].
  destruct nm as [v| |[[msg|msg]|msg]]; try reflexivity;
    try destruct lc as [[e|msg]|collections]; try reflexivity;
    eexists; (split; [reflexivity|]);
    (split; [rewrite !dom_insert_L, dom_empty_L; set_solver | by simplify_map_eq]).
Qed.

(** The fields [database_url] and [database_name] of the answer report
    the environment only: set, when the variable holds a non-empty string,
    not set otherwise, an empty value included.  What the function wrote
    there while it looked at the database, the mark "configured" and the
    name of the database, never reaches the caller. *)
Theorem diagnostic_reports_environment_only
    (database : Diag.PyExn + option Diag.Db) (getenv : string -> option string) :
  exists resp : gmap string Diag.Value,
    Diag.test_database database getenv = inr resp /\
    resp !! "database_url"%string =
      Some (Diag.VStr (if truthy (getenv "DATABASE_URL") then "✅ Set" else "❌ Not Set")) /\
    resp !! "database_name"%string =
      Some (Diag.VStr (if truthy (getenv "DATABASE_NAME") then "✅ Set" else "❌ Not Set")) /\
    resp !! "database_url"%string <> Some (Diag.VStr "✅ Configured") /\
    (getenv "DATABASE_URL"%string = Some ""%string ->
     resp !! "database_url"%string = Some (Diag.VStr "❌ Not Set")) /\
    (forall db v,
        database = inr (Some db) -> Diag.name db = Some v ->
        v <> Diag.VStr "✅ Set" -> v <> Diag.VStr "❌ Not Set" ->
        resp !! "database_name"%string <> Some v).
Proof.
  rewrite DiagFacts.test_database_cases. cbv zeta. unfold Diag.response0.
  assert (Hcfg : forall b : bool,
             Some (Diag.VStr (if b then "✅ Set" else "❌ Not Set"))
             <> Some (Diag.VStr "✅ Configured")) by (intros []; discriminate).
  assert (Hname : forall (b : bool) v,
             v <> Diag.VStr "✅ Set" -> v <> Diag.VStr "❌ Not Set" ->
             Some (Diag.VStr (if b then "✅ Set" else "❌ Not Set")) <> Some v).
  { intros [] v H1 H2 [= E]; subst v; [now apply H1 | now apply H2]. }
  destruct database as [[msg|msg]|[[nm [e|collections]]|]]; cbn [Diag.list_collection_names];
    eexists; (split; [reflexivity|]);
    (split; [by simplify_map_eq|]); (split; [by simplify_map_eq|]);
    (split; [simplify_map_eq; apply Hcfg|]);
    (split; [intros E; simplify_map_eq; now rewrite E|]);
    intros db v Hdb Hv H1 H2; simplify_map_eq; now apply Hname.
Qed.

(** In an answer of [test_database], [connection_status] says connected
    exactly when the import gave an object and reading its [name] raised
    nothing, also when listing its collections then failed; a [name] that
    raises leaves the status at not connected although [db] is there.
    [collections] holds the first ten names the database lists, in their
    order, and is empty in every other case. *)
Theorem diagnostic_connection_and_collections
    (database : DiagAny.Raised + option DiagAny.Db) (getenv : string -> option string)
    (resp : gmap string Diag.Value) :
  DiagAny.test_database database getenv = inr resp ->
  exists shown : list string,
    resp !! "collections"%string = Some (Diag.VList shown) /\
    (List.length shown <= 10)%nat /\
    (resp !! "connection_status"%string = Some (Diag.VStr "Connected") <->
     exists db, database = inr (Some db) /\ forall e, DiagAny.name db <> DiagAny.Raises e) /\
    (resp !! "connection_status"%string = Some (Diag.VStr "Connected") \/
     resp !! "connection_status"%string = Some (Diag.VStr "Not Connected")) /\
    (forall db names,
        database = inr (Some db) ->
        (forall e, DiagAny.name db <> DiagAny.Raises e) ->
        DiagAny.list_collection_names db = inr names ->
        shown = firstn 10 names /\
        resp !! "database"%string = Some (Diag.VStr "✅ Connected & Working")) /\
    (shown <> [] ->
     exists db names,
       database = inr (Some db) /\ DiagAny.list_collection_names db = inr names).
Proof.
  rewrite DiagAnyFacts.test_database_any_cases. cbv zeta.
  unfold DiagAny.finish, DiagAny.caught, Diag.response0.
  assert (Hraise : forall db : DiagAny.Db,
             (forall e, DiagAny.name db <> DiagAny.Raises e) ->
             forall e, DiagAny.name db = DiagAny.Raises e -> False)
    by (intros db H e E; exact (H e E)).
  destruct database as [[[msg|msg]|msg]|[[nm lc]|]].
  - intros [= <-]. exists []. split; [by simplify_map_eq|]. split; [cbn; lia|].
    split; [split; [intros H; by simplify_map_eq|intros (db & [= ] & _)]|].
    split; [right; by simplify_map_eq|].
    split; [intros db names [= ]|intros H; now destruct H].
  - intros [= <-]. exists []. split; [by simplify_map_eq|]. split; [cbn; lia|].
    split; [split; [intros H; by simplify_map_eq|intros (db & [= ] & _)]|].
    split; [right; by simplify_map_eq|].
    split; [intros db names [= ]|intros H; now destruct H].
  - discriminate.
  - cbn [DiagAny.name DiagAny.list_collection_names].
    destruct nm as [v| |[[msg|msg]|msg]]; try discriminate;
      try (destruct lc as [[e|msg]|collections]; try discriminate).
    all: intros [= <-].
    all: try (exists (firstn 10 collections); split; [by simplify_map_eq|];
              split; [apply firstn_le_length|];
              split; [split; [intros _; eexists; split; [reflexivity|intros e; discriminate]
                             |intros _; by simplify_map_eq]|];
              split; [left; by simplify_map_eq|];
              split; [intros db names [= <-] _; cbn; intros [= <-]; split;
                        [reflexivity|by simplify_map_eq]
                     |intros _; eexists _, _; split; reflexivity]).
    all: try (exists []; split; [by simplify_map_eq|]; split; [cbn; lia|];
              split; [split; [intros _; eexists; split; [reflexivity|intros e'; discriminate]
                             |intros _; by simplify_map_eq]|];
              split; [left; by simplify_map_eq|];
              split; [intros db names [= <-] _; cbn; discriminate
                     |intros H; now destruct H]).
    all: exists []; (split; [by simplify_map_eq|]); (split; [cbn; lia|]);
         (split; [split; [intros H; by simplify_map_eq
                         |intros (db & [= <-] & Hn); exfalso; eapply (Hn _); reflexivity]|]);
         (split; [right; by simplify_map_eq|]);
         (split; [intros db names [= <-] Hn; exfalso; eapply (Hn _); reflexivity
                 |intros H; now destruct H]).
  - intros [= <-]. exists []. split; [by simplify_map_eq|]. split; [cbn; lia|].
    split; [split; [intros H; by simplify_map_eq|intros (db & [= ] & _)]|].
    split; [right; by simplify_map_eq|].
    split; [intros db names [= ]|intros H; now destruct H].
Qed.

Lemma diagnostic_connection_and_collections_witness :
  exists resp : gmap string Diag.Value,
    DiagAny.test_database
      (inr (Some (DiagAny.mkDb
                    (DiagAny.Raises (DiagAny.Ex (Diag.OtherException "boom")))
                    (inr ["users"%string]))))
      (fun _ => None) = inr resp /\
    resp !! "connection_status"%string = Some (Diag.VStr "Not Connected") /\
    resp !! "database"%string = Some (Diag.VStr "❌ Error: boom") /\
    resp !! "collections"%string = Some (Diag.VList []) /\
    resp !! "connection_status"%string <> Some (Diag.VStr "Connected").
Proof.
  eexists. split; [reflexivity|]. split; [reflexivity|].
  split; [reflexivity|]. split; [reflexivity|].
  intros Hc.
  destruct (diagnostic_connection_and_collections
              (inr (Some (DiagAny.mkDb
                            (DiagAny.Raises (DiagAny.Ex (Diag.OtherException "boom")))
                            (inr ["users"%string]))))
              (fun _ => None) _ eq_refl)
    as (shown & _ & _ & Hiff & _).
  apply Hiff in Hc. destruct Hc as (db & [= <-] & Hn).
  exact (Hn _ eq_refl).
Defined.

(** An error message is cut to its first 50 characters, counted in code
    points: when the import raises an exception other than [ImportError],
    and when listing the collections raises, [database] is the fixed mark
    followed by a prefix of the message that is at most 50 characters
    long, the whole message when it is that short. *)
Theorem diagnostic_truncates_error_message
    (msg : string) (nm : option Diag.Value) (e : Diag.PyExn)
    (getenv : string -> option string) :
  (exists (resp : gmap string Diag.Value) (shown : string),
      Diag.test_database (inl (Diag.OtherException msg)) getenv = inr resp /\
      resp !! "database"%string = Some (Diag.VStr ("❌ Error: " ++ shown)) /\
      (Diag.py_len shown <= 50)%nat /\
      (exists rest, msg = (shown ++ rest)%string) /\
      ((Diag.py_len msg <= 50)%nat -> shown = msg)) /\
  (exists (resp : gmap string Diag.Value) (shown : string),
      Diag.test_database (inr (Some (Diag.mkDb nm (inl e)))) getenv = inr resp /\
      resp !! "database"%string =
        Some (Diag.VStr ("⚠️  Connected but Error: " ++ shown)) /\
      (Diag.py_len shown <= 50)%nat /\
      (exists rest, Diag.str e = (shown ++ rest)%string) /\
      ((Diag.py_len (Diag.str e) <= 50)%nat -> shown = Diag.str e)).
Proof.
  rewrite !DiagFacts.test_database_cases. cbv zeta. unfold Diag.response0.
  cbn [Diag.list_collection_names].
  split; eexists _, (Diag.py_take 50 _); (split; [reflexivity|]);
    (split; [by simplify_map_eq|]);
    (split; [apply DiagFacts.py_len_take|]);
    (split; [apply DiagFacts.py_take_prefix|apply DiagFacts.py_take_all]).
Qed.

Lemma diagnostic_truncates_error_message_witness :
  exists resp : gmap string Diag.Value,
    Diag.test_database
      (inl (Diag.OtherException
              "connexion refusée: 0123456789012345678901234567890123456789"))
      (fun _ => None) = inr resp /\
    resp !! "database"%string =
      Some (Diag.VStr "❌ Error: connexion refusée: 0123456789012345678901234567890").
Proof.
  destruct (proj1 (diagnostic_truncates_error_message
                     "connexion refusée: 0123456789012345678901234567890123456789"
                     None (Diag.OtherException "") (fun _ => None)))
    as (resp & shown & Hrun & Hdb & _).
  exists resp. split; [exact Hrun|].
  rewrite DiagFacts.test_database_cases in Hrun. cbv zeta in Hrun.
  injection Hrun as <-. simplify_map_eq. reflexivity.
Defined.

(** ** The compositor on its own result *)

(** [_apply_watermark] cannot be applied to what it returns: the result
    is an [RGB] buffer, and a second call on it raises [ValueError] in
    [Image.alpha_composite].  Stacking two labels needs a conversion back
    to [RGBA] in between. *)
Theorem composite_twice_raises `{P : Platform}
    (w : World) (img : loc) (im : Image) (text text' : string) :
  heap w !! img = Some im ->
  im_mode im = ModeRGBA ->
  exists (out : loc) (w' : World),
    _apply_watermark img text w = (Ok out, w') /\
    fst (_apply_watermark out text' w') =
      Raise (Exception (ValueError "image has wrong mode")) /\
    fst (bind (Image_convert out ModeRGBA) (fun again => _apply_watermark again text') w')
      <> Raise (Exception (ValueError "image has wrong mode")).
Proof.
  intros Himg Hmode.
  destruct (apply_watermark_spec w img im text Himg Hmode)
    as (out & layer & w' & Hrun & _ & _ & _ & _ & Hout & _).
  cbv zeta in Hout.
  set (res := convert _ ModeRGB) in Hout.
  exists out, w'. split; [exact Hrun|]. split.
  - eapply apply_watermark_rgb_raises; [exact Hout|apply convert_mode].
  - rewrite (bind_ok _ _ _ _ _ (Image_convert_ok _ _ _ ModeRGBA Hout)).
    destruct (apply_watermark_spec
                (mkWorld (<[fresh (dom (heap w')) := convert res ModeRGBA]> (heap w'))
                   (trace w'))
                (fresh (dom (heap w'))) (convert res ModeRGBA) text')
      as (out2 & layer2 & w2 & Hrun2 & _);
      [apply lookup_insert_eq | apply convert_rgba_mode |].
    rewrite Hrun2. discriminate.
Qed.

Lemma composite_twice_raises_witness :
  heap Ref.world0 !! 1%positive = Some Ref.loaded /\
  im_mode Ref.loaded = ModeRGBA /\
  exists (out : loc) (w' : World),
    @_apply_watermark Ref.platform 1%positive "made by afthab" Ref.world0 = (Ok out, w') /\
    fst (@_apply_watermark Ref.platform out "made by afthab" w') =
      Raise (Exception (ValueError "image has wrong mode")).
Proof.
  split; [reflexivity|]. split; [reflexivity|].
  destruct (@composite_twice_raises Ref.platform Ref.world0 1%positive Ref.loaded
              "made by afthab" "made by afthab" eq_refl eq_refl)
    as (out & w' & Hrun & Hraise & _).
  exists out, w'. split; [exact Hrun|exact Hraise].
Defined.
